(** * The response cache of dnscrypt-proxy (plugin_cache.go)

    A shallow embedding of [dnscrypt-proxy/plugin_cache.go]: the derivation of
    the cache key, the reader plugin [PluginCache] and the writer plugin
    [PluginCacheResponse], over an explicit world holding the clock, the heap
    of resource records and the process-wide [cachedResponses]. *)

From Stdlib Require Import ZArith List String Ascii Lia Bool.
From stdpp Require Import base option list gmap strings.
Import ListNotations.

Local Open Scope Z_scope.

(** ** Bytes and fixed-width integers

    A byte is an integer in [0, 256); [uint16] and [uint64] values are
    integers with the wrap-around written where the code truncates. *)

Definition byte_of (v : Z) : Z := Z.land v 255.

Definition is_byte (b : Z) : bool := (0 <=? b) && (b <? 256).

Definition bytes_of_string (s : string) : list Z :=
  map (fun c => Z.of_N (N_of_ascii c)) (list_ascii_of_string s).

(** ** crypto/sha512: SHA-512/256 (FIPS 180-4)

    The hash the key derivation instantiates with [sha512.New512_256]. *)

Module SHA512.

Definition mask64 : Z := 2 ^ 64 - 1.

Definition add64 (x y : Z) : Z := Z.land (x + y) mask64.

Definition rotr (n x : Z) : Z :=
  Z.lor (Z.shiftr x n) (Z.land (Z.shiftl x (64 - n)) mask64).

Definition Ch (x y z : Z) : Z :=
  Z.lxor (Z.land x y) (Z.land (Z.lxor x mask64) z).

Definition Maj (x y z : Z) : Z :=
  Z.lxor (Z.lxor (Z.land x y) (Z.land x z)) (Z.land y z).

Definition bigSigma0 (x : Z) : Z := Z.lxor (Z.lxor (rotr 28 x) (rotr 34 x)) (rotr 39 x).
Definition bigSigma1 (x : Z) : Z := Z.lxor (Z.lxor (rotr 14 x) (rotr 18 x)) (rotr 41 x).
Definition smallSigma0 (x : Z) : Z := Z.lxor (Z.lxor (rotr 1 x) (rotr 8 x)) (Z.shiftr x 7).
Definition smallSigma1 (x : Z) : Z := Z.lxor (Z.lxor (rotr 19 x) (rotr 61 x)) (Z.shiftr x 6).

Definition _K : list Z :=
  [0x428a2f98d728ae22; 0x7137449123ef65cd; 0xb5c0fbcfec4d3b2f; 0xe9b5dba58189dbbc;
   0x3956c25bf348b538; 0x59f111f1b605d019; 0x923f82a4af194f9b; 0xab1c5ed5da6d8118;
   0xd807aa98a3030242; 0x12835b0145706fbe; 0x243185be4ee4b28c; 0x550c7dc3d5ffb4e2;
   0x72be5d74f27b896f; 0x80deb1fe3b1696b1; 0x9bdc06a725c71235; 0xc19bf174cf692694;
   0xe49b69c19ef14ad2; 0xefbe4786384f25e3; 0x0fc19dc68b8cd5b5; 0x240ca1cc77ac9c65;
   0x2de92c6f592b0275; 0x4a7484aa6ea6e483; 0x5cb0a9dcbd41fbd4; 0x76f988da831153b5;
   0x983e5152ee66dfab; 0xa831c66d2db43210; 0xb00327c898fb213f; 0xbf597fc7beef0ee4;
   0xc6e00bf33da88fc2; 0xd5a79147930aa725; 0x06ca6351e003826f; 0x142929670a0e6e70;
   0x27b70a8546d22ffc; 0x2e1b21385c26c926; 0x4d2c6dfc5ac42aed; 0x53380d139d95b3df;
   0x650a73548baf63de; 0x766a0abb3c77b2a8; 0x81c2c92e47edaee6; 0x92722c851482353b;
   0xa2bfe8a14cf10364; 0xa81a664bbc423001; 0xc24b8b70d0f89791; 0xc76c51a30654be30;
   0xd192e819d6ef5218; 0xd69906245565a910; 0xf40e35855771202a; 0x106aa07032bbd1b8;
   0x19a4c116b8d2d0c8; 0x1e376c085141ab53; 0x2748774cdf8eeb99; 0x34b0bcb5e19b48a8;
   0x391c0cb3c5c95a63; 0x4ed8aa4ae3418acb; 0x5b9cca4f7763e373; 0x682e6ff3d6b2b8a3;
   0x748f82ee5defb2fc; 0x78a5636f43172f60; 0x84c87814a1f0ab72; 0x8cc702081a6439ec;
   0x90befffa23631e28; 0xa4506cebde82bde9; 0xbef9a3f7b2c67915; 0xc67178f2e372532b;
   0xca273eceea26619c; 0xd186b8c721c0c207; 0xeada7dd6cde0eb1e; 0xf57d4f7fee6ed178;
   0x06f067aa72176fba; 0x0a637dc5a2c898a6; 0x113f9804bef90dae; 0x1b710b35131c471b;
   0x28db77f523047d84; 0x32caab7b40c72493; 0x3c9ebe0a15c9bebc; 0x431d67c49c100d4c;
   0x4cc5d4becb3e42b6; 0x597f299cfc657e2a; 0x5fcb6fab3ad6faec; 0x6c44198c4a475817].

(** The eight working variables, and the chaining value between blocks. *)
Record hstate := H8 { ha : Z; hb : Z; hc : Z; hd : Z; he : Z; hf : Z; hg : Z; hh : Z }.

(** Initial chaining value of SHA-512/256. *)
Definition init512_256 : hstate :=
  H8 0x22312194fc2bf72c 0x9f555fa3c84c64c2 0x2393b86b6f53b151 0x963877195940eabd
     0x96283ee2a88effe3 0xbe5e1e2553863992 0x2b0199fc2c85b8aa 0x0eb72ddc81c52ca2.

(** Big-endian reading of a 64-bit word from (up to) eight bytes. *)
Definition be_word (bs : list Z) : Z :=
  fold_left (fun acc b => Z.lor (Z.shiftl acc 8) b) bs 0.

(** Big-endian writing of a 64-bit word into eight bytes. *)
Definition be_bytes (x : Z) : list Z :=
  map (fun i => byte_of (Z.shiftr x (8 * i))) [7; 6; 5; 4; 3; 2; 1; 0].

(** The first sixteen schedule words of a 128-byte block. *)
Fixpoint block_words (n : nat) (p : list Z) : list Z :=
  match n with
  | O => []
  | S n' => be_word (firstn 8 p) :: block_words n' (skipn 8 p)
  end.

(** Extends the schedule by [n] words: w[i] for i >= 16. *)
Fixpoint extend_schedule (n : nat) (w : list Z) : list Z :=
  match n with
  | O => w
  | S n' =>
      let i := List.length w in
      let at_ k := nth (i - k) w 0 in
      let wi := add64 (add64 (add64 (smallSigma1 (at_ 2%nat)) (at_ 7%nat))
                             (smallSigma0 (at_ 15%nat))) (at_ 16%nat) in
      extend_schedule n' (w ++ [wi])
  end.

Definition schedule (p : list Z) : list Z :=
  extend_schedule 64 (block_words 16 p).

Definition round (s : hstate) (kw : Z * Z) : hstate :=
  let '(k, w) := kw in
  let t1 := add64 (add64 (add64 (add64 (hh s) (bigSigma1 (he s)))
                                (Ch (he s) (hf s) (hg s))) k) w in
  let t2 := add64 (bigSigma0 (ha s)) (Maj (ha s) (hb s) (hc s)) in
  H8 (add64 t1 t2) (ha s) (hb s) (hc s) (add64 (hd s) t1) (he s) (hf s) (hg s).

(** One application of the compression function to a 128-byte block. *)
Definition block (s : hstate) (p : list Z) : hstate :=
  let r := fold_left round (combine _K (schedule p)) s in
  H8 (add64 (ha s) (ha r)) (add64 (hb s) (hb r)) (add64 (hc s) (hc r))
     (add64 (hd s) (hd r)) (add64 (he s) (he r)) (add64 (hf s) (hf r))
     (add64 (hg s) (hg r)) (add64 (hh s) (hh r)).

Fixpoint blocks (n : nat) (s : hstate) (p : list Z) : hstate :=
  match n with
  | O => s
  | S n' => blocks n' (block s (firstn 128 p)) (skipn 128 p)
  end.

(** Padding: a 0x80 byte, zeros up to 112 modulo 128, and the bit length
    as a 128-bit big-endian integer. *)
Definition padding (len : Z) : list Z :=
  0x80 :: repeat 0 (Z.to_nat ((111 - len) mod 128))
       ++ be_bytes (Z.shiftr (8 * len) 64) ++ be_bytes (8 * len).

Definition Sum512_256 (data : list Z) : list Z :=
  let p := data ++ padding (Z.of_nat (List.length data)) in
  let s := blocks (List.length p / 128) init512_256 p in
  be_bytes (ha s) ++ be_bytes (hb s) ++ be_bytes (hc s) ++ be_bytes (hd s).

(** The streaming interface of [hash.Hash]: [Write] adds data to the running
    hash, [Sum] appends the hash of everything written to its argument. *)
Record digest := { written : list Z }.

Definition New512_256 : digest := {| written := [] |}.

Definition Write (d : digest) (p : list Z) : digest :=
  {| written := written d ++ p |}.

Definition Sum (d : digest) (b : list Z) : list Z :=
  b ++ Sum512_256 (written d).

End SHA512.

Definition hex_bytes (s : string) : list Z :=
  (fix go (l : list Z) : list Z :=
     match l with
     | hi :: lo :: r => (16 * hi + lo) :: go r
     | _ => []
     end)
    (map (fun c => let n := Z.of_N (N_of_ascii c) in
                   if n <? 58 then n - 48 else n - 87)
         (list_ascii_of_string s)).

(** ** github.com/miekg/dns: the message representation

    A [dns.Msg] is a struct: its header fields are plain values, its sections
    are slices.  A [dns.RR] is an interface value holding a pointer to a
    record, so the sections [Answer], [Ns] and [Extra] are lists of addresses
    into the heap of records; copying the struct copies the addresses, not
    the records. *)

Module dns.

Definition RcodeSuccess : Z := 0.
Definition RcodeFormatError : Z := 1.
Definition RcodeServerFailure : Z := 2.
Definition RcodeNameError : Z := 3.
Definition RcodeNotImplemented : Z := 4.
Definition RcodeRefused : Z := 5.
Definition RcodeNotAuth : Z := 9.

Definition TypeA : Z := 1.
Definition TypeSOA : Z := 6.
Definition ClassINET : Z := 1.

Record QuestionEntry := {
  Name : string;
  Qtype : Z;    (* uint16 *)
  Qclass : Z    (* uint16 *)
}.

Record RR_Header := {
  hName : string;
  Rrtype : Z;
  Class : Z;
  Ttl : Z;      (* seconds *)
}.

Record RR := { Hdr : RR_Header; Rdata : list Z }.

(** Address of a record on the heap. *)
Abbreviation loc := nat (only parsing).

Record Msg := {
  Id : Z;
  Response : bool;
  Opcode : Z;
  Authoritative : bool;
  Truncated : bool;
  RecursionDesired : bool;
  RecursionAvailable : bool;
  Zero : bool;
  AuthenticatedData : bool;
  CheckingDisabled : bool;
  Rcode : Z;
  Compress : bool;
  Question : list QuestionEntry;
  Answer : list loc;
  Ns : list loc;
  Extra : list loc
}.

Definition with_Ttl (ttl : Z) (r : RR) : RR :=
  {| Hdr := {| hName := hName (Hdr r); Rrtype := Rrtype (Hdr r);
               Class := Class (Hdr r); Ttl := ttl |};
     Rdata := Rdata r |}.

(** Every record a message points to, section after section. *)
Definition records (m : Msg) : list loc := Answer m ++ Ns m ++ Extra m.

(** The four assignments the reader makes on its copy. *)
Definition answering (query synth : Msg) : Msg :=
  {| Id := Id query; Response := true; Opcode := Opcode synth;
     Authoritative := Authoritative synth; Truncated := Truncated synth;
     RecursionDesired := RecursionDesired synth;
     RecursionAvailable := RecursionAvailable synth; Zero := Zero synth;
     AuthenticatedData := AuthenticatedData synth;
     CheckingDisabled := CheckingDisabled synth; Rcode := Rcode synth;
     Compress := true; Question := Question query;
     Answer := Answer synth; Ns := Ns synth; Extra := Extra synth |}.

(** The struct of a message with its sections pointing elsewhere. *)
Definition with_sections (m : Msg) (an ns ex : list loc) : Msg :=
  {| Id := Id m; Response := Response m; Opcode := Opcode m;
     Authoritative := Authoritative m; Truncated := Truncated m;
     RecursionDesired := RecursionDesired m;
     RecursionAvailable := RecursionAvailable m; Zero := Zero m;
     AuthenticatedData := AuthenticatedData m;
     CheckingDisabled := CheckingDisabled m; Rcode := Rcode m;
     Compress := Compress m; Question := Question m;
     Answer := an; Ns := ns; Extra := ex |}.

End dns.
Import dns.

(** ** Time

    A [time.Time] is an instant in nanoseconds, a [time.Duration] a number of
    nanoseconds. *)

Definition Second : Z := 1000000000.

Definition StaleResponseTTL : Z := 30 * Second.

(** ** The cached value and the store

    [sievecache.ShardedSieveCache] is an external collaborator.  Only its
    three entry points are used; which entries an insertion evicts is the
    store's own business and is left open. [Get] hands back the store as
    well, since a lookup may touch the store's eviction bookkeeping. *)

Record CachedResponse := {
  expiration : Z;
  msg : Msg
}.

Definition CacheKey := list Z.

Class SieveCache (Cache : Type) := {
  NewSharded : Z -> Cache + string;
  Get : Cache -> CacheKey -> option CachedResponse * Cache;
  Insert : Cache -> CacheKey -> CachedResponse -> Cache
}.

(** What the plugins rely on: a lookup does not change what lookups return,
    an inserted entry is found under its key, and nothing is found after an
    insertion that was not inserted or found before. *)
Class SieveCacheLaws (Cache : Type) `{SieveCache Cache} : Prop := {
  Get_Get : forall c k k', fst (Get (snd (Get c k)) k') = fst (Get c k');
  Get_Insert : forall c k v, fst (Get (Insert c k v) k) = Some v;
  Get_Insert_inv : forall c k v k' e,
      fst (Get (Insert c k v) k') = Some e -> e = v \/ fst (Get c k') = Some e
}.

(** ** plugins.go: the per-query state (the fields this file touches) *)

Inductive PluginsAction :=
| PluginsActionNone
| PluginsActionContinue
| PluginsActionDrop
| PluginsActionReject
| PluginsActionSynth.

Record PluginsState := {
  dnssec : bool;
  cacheSize : Z;
  cacheMinTTL : Z;
  cacheMaxTTL : Z;
  cacheNegMinTTL : Z;
  cacheNegMaxTTL : Z;
  sessionData : gmap string Msg;
  action : PluginsAction;
  synthResponse : option Msg;
  cacheHit : bool
}.

Definition set_stale (st : PluginsState) (synth : Msg) : PluginsState :=
  {| dnssec := dnssec st; cacheSize := cacheSize st;
     cacheMinTTL := cacheMinTTL st; cacheMaxTTL := cacheMaxTTL st;
     cacheNegMinTTL := cacheNegMinTTL st; cacheNegMaxTTL := cacheNegMaxTTL st;
     sessionData := <["stale"%string := synth]> (sessionData st);
     action := action st; synthResponse := synthResponse st;
     cacheHit := cacheHit st |}.

Definition set_synth (st : PluginsState) (synth : Msg) : PluginsState :=
  {| dnssec := dnssec st; cacheSize := cacheSize st;
     cacheMinTTL := cacheMinTTL st; cacheMaxTTL := cacheMaxTTL st;
     cacheNegMinTTL := cacheNegMinTTL st; cacheNegMaxTTL := cacheNegMaxTTL st;
     sessionData := sessionData st;
     action := PluginsActionSynth; synthResponse := Some synth;
     cacheHit := true |}.

(** The same per-query state with another configured cache size. *)
Definition with_cacheSize (st : PluginsState) (capacity : Z) : PluginsState :=
  {| dnssec := dnssec st; cacheSize := capacity;
     cacheMinTTL := cacheMinTTL st; cacheMaxTTL := cacheMaxTTL st;
     cacheNegMinTTL := cacheNegMinTTL st; cacheNegMaxTTL := cacheNegMaxTTL st;
     sessionData := sessionData st;
     action := action st; synthResponse := synthResponse st;
     cacheHit := cacheHit st |}.

(** ** The world the plugins run in *)

Section World.

Context {Cache : Type}.

(** [cachedResponses]: the store pointer (nil before construction) and
    whether [cacheOnce] has fired; [cacheMu] is never taken. *)
Record CachedResponses := {
  cache : option Cache;
  cacheOnce : bool
}.

(** [clock] lists what successive calls of [time.Now] return and [ticks]
    counts the calls made; [heap] holds the records; [constructions] logs
    the capacity of every call of [NewSharded], latest first. *)
Record World := {
  clock : nat -> Z;
  ticks : nat;
  heap : list RR;
  cachedResponses : CachedResponses;
  constructions : list Z
}.

Definition with_ticks (w : World) (n : nat) : World :=
  {| clock := clock w; ticks := n; heap := heap w;
     cachedResponses := cachedResponses w; constructions := constructions w |}.

Definition with_heap (w : World) (h : list RR) : World :=
  {| clock := clock w; ticks := ticks w; heap := h;
     cachedResponses := cachedResponses w; constructions := constructions w |}.

Definition with_cache (w : World) (c : option Cache) : World :=
  {| clock := clock w; ticks := ticks w; heap := heap w;
     cachedResponses := {| cache := c; cacheOnce := cacheOnce (cachedResponses w) |};
     constructions := constructions w |}.

Definition with_attempt (w : World) (capacity : Z) : World :=
  {| clock := clock w; ticks := ticks w; heap := heap w;
     cachedResponses := {| cache := cache (cachedResponses w); cacheOnce := true |};
     constructions := capacity :: constructions w |}.

(** A computation either returns a value and the next world, or panics. *)
Inductive Result (A : Type) :=
| Done (a : A) (w : World)
| Panic.
Arguments Done {A} a w.
Arguments Panic {A}.

Definition M (A : Type) : Type := World -> Result A.

Definition ret {A} (a : A) : M A := fun w => Done a w.

Definition bind {A B} (m : M A) (k : A -> M B) : M B :=
  fun w => match m w with
           | Done a w' => k a w'
           | Panic => Panic
           end.

Definition panic {A} : M A := fun _ => Panic.

End World.

Arguments World : clear implicits.
Arguments CachedResponses : clear implicits.
Arguments Result : clear implicits.
Arguments M : clear implicits.
Arguments Done {Cache A} a w.
Arguments Panic {Cache A}.

Notation "'let*' x := m 'in' k" := (bind m (fun x => k))
  (at level 10, x name, m at level 100, k at level 200, only parsing).

(** ** Primitive effects: the clock and the heap of records *)

Section Effects.

Context {Cache : Type}.
Local Abbreviation M := (M Cache).

(** [time.Now()] *)
Definition Now : M Z :=
  fun w => Done (clock w (ticks w)) (with_ticks w (S (ticks w))).

(** Reading through a record pointer. *)
Definition load (l : loc) : M RR :=
  fun w => match heap w !! l with
           | Some r => Done r w
           | None => Panic
           end.

(** Writing through a record pointer. *)
Definition store (l : loc) (r : RR) : M unit :=
  fun w => match heap w !! l with
           | Some _ => Done tt (with_heap w (<[l := r]> (heap w)))
           | None => Panic
           end.

(** Allocating a new record. *)
Definition alloc (r : RR) : M loc :=
  fun w => Done (length (heap w)) (with_heap w (heap w ++ [r])).

Definition orPanic {A} (o : option A) : M A :=
  match o with
  | Some a => ret a
  | None => panic
  end.

Fixpoint collect {A B} (f : A -> M B) (l : list A) : M (list B) :=
  match l with
  | [] => ret []
  | x :: l' => let* y := f x in let* ys := collect f l' in ret (y :: ys)
  end.

Fixpoint forEach {A} (f : A -> M unit) (l : list A) : M unit :=
  match l with
  | [] => ret tt
  | x :: l' => let* _ := f x in forEach f l'
  end.

(** [rr.Header().Ttl = ttl] *)
Definition setTtl (ttl : Z) (l : loc) : M unit :=
  let* r := load l in store l (with_Ttl ttl r).

(** [dns.Copy(rr)]: a new record with the same contents. *)
Definition copyRR (l : loc) : M loc :=
  let* r := load l in alloc r.

(** [Msg.Copy] of miekg/dns: the deep copy of a message; the struct is copied and
    every record of every section is copied to a new address. *)
Definition Copy (m : Msg) : M Msg :=
  let* an := collect copyRR (Answer m) in
  let* ns := collect copyRR (Ns m) in
  let* ex := collect copyRR (Extra m) in
  ret (with_sections m an ns ex).

(** Modelled from the spec: [getMinTTL] is called by the writer but defined
    outside plugin_cache.go.  Spec 4.2: a response is positive when it is a
    successful answer with at least one answer record and negative
    otherwise; the matching pair of bounds is selected; the smallest TTL
    among the records of the relevant section (the answer section of a
    positive response, the authority section of a negative one) is clamped
    into the bounds.  The result is a duration. *)
Definition getMinTTL (msg : Msg)
    (minTTL maxTTL cacheNegMinTTL cacheNegMaxTTL : Z) : M Z :=
  let positive :=
    (Rcode msg =? RcodeSuccess) && negb (Nat.eqb (length (Answer msg)) 0) in
  let lo := if positive then minTTL else cacheNegMinTTL in
  let hi := if positive then maxTTL else cacheNegMaxTTL in
  let section := if positive then Answer msg else Ns msg in
  let* ttls := collect (fun l => let* r := load l in ret (Ttl (Hdr r))) section in
  ret (Z.max lo (fold_right Z.min hi ttls) * Second).

(** The remaining time in whole seconds, to the nearest second; nothing
    remains once the instant has passed. *)
Definition remaining_seconds (until : Z) : Z :=
  if until <=? 0 then 0
  else
    let ttl := until / Second in
    if Second / 2 <=? until - ttl * Second then ttl + 1 else ttl.

(** Modelled from the spec: [updateTTL] is called by both plugins but defined
    outside plugin_cache.go.  Spec 4.2 to 4.4: it rewrites the TTL of the
    records of the message, in place, to the time remaining until the given
    expiration. *)
Definition updateTTL (msg : Msg) (expiration : Z) : M unit :=
  let* t := Now in
  let ttl := remaining_seconds (expiration - t) in
  forEach (setTtl ttl) (records msg).

End Effects.

(** ** Key derivation *)

(** Modelled from the spec: [NormalizeRawQName] is called by the key
    derivation but defined outside plugin_cache.go.  Spec 4.1: it lower-cases
    ASCII letters and leaves every other byte unchanged. *)
Definition NormalizeRawQName (name : list Z) : list Z :=
  map (fun c => if (65 <=? c) && (c <=? 90) then c + 32 else c) name.

(** [binary.LittleEndian.PutUint16(b[off:off+2], v)] *)
Definition PutUint16 (b : list Z) (off : nat) (v : Z) : list Z :=
  <[S off := byte_of (Z.shiftr v 8)]> (<[off := byte_of v]> b).

(** [computeCacheKey]; [None] is the run-time panic of [msg.Question[0]] on
    an empty question section. *)
Definition computeCacheKey (pluginsState : PluginsState) (msg : Msg)
  : option CacheKey :=
  match Question msg with
  | [] => None
  | question :: _ =>
      let h := SHA512.New512_256 in
      let tmp := repeat 0 5 in
      let tmp := PutUint16 tmp 0 (Qtype question) in
      let tmp := PutUint16 tmp 2 (Qclass question) in
      let tmp := if dnssec pluginsState then <[4%nat := 1]> tmp else tmp in
      let h := SHA512.Write h tmp in
      let normalizedRawQName := bytes_of_string (Name question) in
      let normalizedRawQName := NormalizeRawQName normalizedRawQName in
      let h := SHA512.Write h normalizedRawQName in
      let sum := SHA512.Sum h [] in
      Some sum
  end.

(** A Go [error]: [None] is nil. *)
Definition error := option string.

(** ** The reader *)

Module PluginCache.
Section Eval.

Context `{SieveCache Cache}.

Definition Eval (pluginsState : PluginsState) (msg : Msg)
  : M Cache (PluginsState * error) :=
  let* cacheKey := orPanic (computeCacheKey pluginsState msg) in
  fun w =>
    match cache (cachedResponses w) with
    | None => Done (pluginsState, None) w
    | Some c =>
        let (found, c') := Get c cacheKey in
        (match found with
         | None => ret (pluginsState, None)
         | Some cached =>
             let '{| expiration := expiration; msg := cached_msg |} := cached in
             let* synth := Copy cached_msg in
             let synth := answering msg synth in
             let* t := Now in
             if expiration <? t then
               let* t2 := Now in
               let expiration2 := t2 + StaleResponseTTL in
               let* _ := updateTTL synth expiration2 in
               ret (set_stale pluginsState synth, None)
             else
               let* _ := updateTTL synth expiration in
               ret (set_synth pluginsState synth, None)
         end) (with_cache w (Some c'))
    end.

End Eval.
End PluginCache.

(** ** The writer *)

Module PluginCacheResponse.
Section Eval.

Context `{SieveCache Cache}.

(** [cachedResponses.cacheOnce.Do(func() { ... })]: the function runs only
    if the guard has not fired yet, and the guard has fired afterwards
    whatever [NewSharded] returned.  The result is [cacheInitError]. *)
Definition cacheOnce_Do (pluginsState : PluginsState) : M Cache error :=
  fun w =>
    if cacheOnce (cachedResponses w) then Done None w
    else
      let w := with_attempt w (cacheSize pluginsState) in
      match NewSharded (cacheSize pluginsState) with
      | inr err => Done (Some err) w
      | inl cache => Done None (with_cache w (Some cache))
      end.

(** [if cachedResponses.cache != nil { cachedResponses.cache.Insert(...) }] *)
Definition insertIfConstructed (cacheKey : CacheKey)
    (cachedResponse : CachedResponse) : M Cache unit :=
  fun w =>
    match cache (cachedResponses w) with
    | Some c => Done tt (with_cache w (Some (Insert c cacheKey cachedResponse)))
    | None => Done tt w
    end.

(** The plugin only reads [pluginsState]; the message is changed through
    its record pointers. *)
Definition Eval (pluginsState : PluginsState) (msg : Msg) : M Cache error :=
  if negb (Rcode msg =? RcodeSuccess) && negb (Rcode msg =? RcodeNameError)
     && negb (Rcode msg =? RcodeNotAuth) then ret None
  else if Truncated msg then ret None
  else
    let* cacheKey := orPanic (computeCacheKey pluginsState msg) in
    let* ttl := getMinTTL msg (cacheMinTTL pluginsState) (cacheMaxTTL pluginsState)
                  (cacheNegMinTTL pluginsState) (cacheNegMaxTTL pluginsState) in
    let* t := Now in
    let cachedResponse := {| expiration := t + ttl; msg := msg |} in
    let* cacheInitError := cacheOnce_Do pluginsState in
    match cacheInitError with
    | Some err =>
        ret (Some ("failed to initialize the cache: " ++ err)%string)
    | None =>
        let* _ := insertIfConstructed cacheKey cachedResponse in
        let* _ := updateTTL msg (expiration cachedResponse) in
        ret None
    end.

End Eval.
End PluginCacheResponse.

(** ** A store to run the plugins on

    Modelled from the spec: the eviction store is an external collaborator
    (spec 2 and 6): a capacity-bounded mapping with [get], [insert] (which may
    evict) and [construct], the latter failing unless the capacity is
    positive.  This one keeps its entries latest first and evicts the
    oldest. *)

Module BoundedStore.

Record t := {
  capacity : Z;
  entries : list (CacheKey * CachedResponse)
}.

Definition has_key (k : CacheKey) (e : CacheKey * CachedResponse) : bool :=
  bool_decide (fst e = k).

Definition construct (capacity : Z) : t + string :=
  if capacity <=? 0 then inr "capacity must be greater than 0"%string
  else inl {| capacity := capacity; entries := [] |}.

Definition get (c : t) (k : CacheKey) : option CachedResponse * t :=
  (snd <$> find (has_key k) (entries c), c).

Definition insert (c : t) (k : CacheKey) (v : CachedResponse) : t :=
  {| capacity := capacity c;
     entries := (k, v) :: firstn (Z.to_nat (capacity c) - 1)
                  (List.filter (fun e => negb (has_key k e)) (entries c)) |}.

End BoundedStore.

#[export] Instance BoundedStore_SieveCache : SieveCache BoundedStore.t := {
  NewSharded := BoundedStore.construct;
  Get := BoundedStore.get;
  Insert := BoundedStore.insert
}.

(** ** The key derivation as the specification words it *)

(** The two bytes of a 16-bit value, low byte first. *)
Definition le16 (v : Z) : list Z := [v mod 256; (v / 256) mod 256].

(** Reading two bytes back, low byte first. *)
Definition le16_value (b : list Z) : Z :=
  match b with
  | [b0; b1] => b0 + 256 * b1
  | _ => -1
  end.

(** [derive(question_name, question_type, question_class, dnssec_requested)]
    of spec 4.1: the digest of the 5-byte header followed by the normalized
    name. *)
Definition derive (question_name : string) (question_type question_class : Z)
    (dnssec_requested : bool) : CacheKey :=
  SHA512.Sum512_256
    ((le16 question_type ++ le16 question_class
        ++ [if dnssec_requested then 1 else 0])
       ++ NormalizeRawQName (bytes_of_string question_name)).

(** Equality of two bytes up to ASCII case: the same byte, or an upper-case
    ASCII letter and its lower-case form. *)
Definition same_letter (a b : Z) : bool :=
  (a =? b)
  || ((65 <=? a) && (a <=? 90) && (b =? a + 32))
  || ((65 <=? b) && (b <=? 90) && (a =? b + 32)).

(** Equality of two names up to ASCII case. *)
Fixpoint equal_fold (n1 n2 : list Z) : bool :=
  match n1, n2 with
  | [], [] => true
  | a :: r1, b :: r2 => same_letter a b && equal_fold r1 r2
  | _, _ => false
  end.

Definition names_equal_fold (s1 s2 : string) : bool :=
  equal_fold (bytes_of_string s1) (bytes_of_string s2).

(** The statuses the writer accepts. *)
Definition cacheable_status (rcode : Z) : bool :=
  (rcode =? RcodeSuccess) || (rcode =? RcodeNameError) || (rcode =? RcodeNotAuth).

(** Every record pointer of the message is allocated. *)
Definition allocated (h : list RR) (ls : list loc) : Prop :=
  Forall (fun l => (l < length h)%nat) ls.

(** What the pointers of a section point to. *)
Definition deref (h : list RR) (ls : list loc) : list (option RR) :=
  map (fun l => h !! l) ls.

(** The heap after the TTL of every record in [ls] has been set to [ttl]. *)
Definition retimed (ttl : Z) (ls : list loc) (h : list RR) : list RR :=
  imap (fun i r => if bool_decide (i ∈ ls) then with_Ttl ttl r else r) h.

(** The copy the reader prepares from a stored message: the struct of the
    stored message answering the query, its sections pointing to the first
    free addresses of the heap. *)
Definition synthesized (query stored : Msg) (n : nat) : Msg :=
  answering query
    (with_sections stored
       (seq n (length (Answer stored)))
       (seq (n + length (Answer stored)) (length (Ns stored)))
       (seq (n + length (Answer stored) + length (Ns stored))
          (length (Extra stored)))).

(** ** Runs of the two plugins

    One step is one call of either plugin that returns; the worlds reached
    later are those reached by any number of such calls. *)

Section Runs.

Context `{SieveCache Cache}.

Inductive call : World Cache -> World Cache -> Prop :=
| call_reader (st st' : PluginsState) (query : Msg) (e : error) (w w' : World Cache) :
    PluginCache.Eval st query w = Done (st', e) w' -> call w w'
| call_writer (st : PluginsState) (response : Msg) (e : error) (w w' : World Cache) :
    PluginCacheResponse.Eval st response w = Done e w' -> call w w'.

Definition later : World Cache -> World Cache -> Prop := rtc call.

(** A lookup that finds nothing: no store yet, or no entry under the key. *)
Definition miss (w : World Cache) (key : CacheKey) : Prop :=
  match cache (cachedResponses w) with
  | None => True
  | Some c => fst (Get c key) = None
  end.

(** Every entry the store holds points to allocated records. *)
Definition stored_allocated (w : World Cache) : Prop :=
  forall c k cached,
    cache (cachedResponses w) = Some c ->
    fst (Get c k) = Some cached ->
    allocated (heap w) (records (msg cached)).

End Runs.

(** ** Parts of the world a computation leaves alone *)

(** The store pointer, the guard and the log of constructions are the same
    in both worlds. *)
Definition same_store {Cache} (w w' : World Cache) : Prop :=
  cachedResponses w' = cachedResponses w /\ constructions w' = constructions w.

(** The guard has fired and left no store behind. *)
Definition disabled {Cache} (w : World Cache) : Prop :=
  cacheOnce (cachedResponses w) = true /\ cache (cachedResponses w) = None.

(** ** What holds of every stored entry *)

Section Stored.

Context `{SieveCache Cache}.

(** A store just constructed holds nothing. *)
Definition constructs_empty : Prop :=
  forall capacity c k, NewSharded capacity = inl c -> fst (Get c k) = None.

(** Every entry the store holds satisfies [P], given the heap. *)
Definition stored_satisfy (P : list RR -> CachedResponse -> Prop)
    (w : World Cache) : Prop :=
  forall c k cached,
    cache (cachedResponses w) = Some c ->
    fst (Get c k) = Some cached ->
    P (heap w) cached.

(** Every entry the store holds is a response that passed the guards of the
    writer and has a first question. *)
Definition stored_cacheable (w : World Cache) : Prop :=
  forall c k cached,
    cache (cachedResponses w) = Some c ->
    fst (Get c k) = Some cached ->
    cacheable_status (Rcode (msg cached)) = true
    /\ Truncated (msg cached) = false
    /\ Question (msg cached) <> [].

End Stored.

(** The bytes [computeCacheKey] writes to the hash for a question. *)
Definition hashed (dnssec : bool) (question : QuestionEntry) : list Z :=
  (le16 (Qtype question) ++ le16 (Qclass question) ++ [if dnssec then 1 else 0])
    ++ NormalizeRawQName (bytes_of_string (Name question)).

(** ** Sample inputs *)

Module Sample.

Definition question : QuestionEntry :=
  {| Name := "example.com."; Qtype := TypeA; Qclass := ClassINET |}.

Definition QUESTION : QuestionEntry :=
  {| Name := "Example.COM."; Qtype := TypeA; Qclass := ClassINET |}.

(** A per-query state as [NewPluginsState] sets it up, with a cache of four
    entries. *)
Definition config : PluginsState :=
  {| dnssec := false; cacheSize := 4;
     cacheMinTTL := 60; cacheMaxTTL := 300;
     cacheNegMinTTL := 30; cacheNegMaxTTL := 120;
     sessionData := ∅; action := PluginsActionContinue;
     synthResponse := None; cacheHit := false |}.

(** The same with a cache size of zero, which [NewSharded] refuses. *)
Definition no_capacity : PluginsState :=
  {| dnssec := false; cacheSize := 0;
     cacheMinTTL := 60; cacheMaxTTL := 300;
     cacheNegMinTTL := 30; cacheNegMaxTTL := 120;
     sessionData := ∅; action := PluginsActionContinue;
     synthResponse := None; cacheHit := false |}.

(** Another state of another query: other bounds, other size, same flag. *)
Definition other_config : PluginsState :=
  {| dnssec := false; cacheSize := 512;
     cacheMinTTL := 10; cacheMaxTTL := 86400;
     cacheNegMinTTL := 5; cacheNegMaxTTL := 600;
     sessionData := ∅; action := PluginsActionNone;
     synthResponse := None; cacheHit := true |}.

Definition message (id rcode : Z) (response truncated : bool)
    (questions : list QuestionEntry) (answer : list nat) : Msg :=
  {| Id := id; Response := response; Opcode := 0; Authoritative := false;
     Truncated := truncated; RecursionDesired := true;
     RecursionAvailable := response; Zero := false;
     AuthenticatedData := false; CheckingDisabled := false;
     Rcode := rcode; Compress := false; Question := questions;
     Answer := answer; Ns := []; Extra := [] |}.

(** A query for [example.com. A IN] and the same in another case. *)
Definition query : Msg := message 9 RcodeSuccess false false [question] [].
Definition QUERY : Msg := message 10 RcodeSuccess false false [QUESTION] [].

(** A query with an empty question section. *)
Definition empty_query : Msg := message 11 RcodeSuccess false false [] [].

(** The upstream answer, with one address record at address 0. *)
Definition response : Msg := message 7 RcodeSuccess true false [question] [0%nat].

(** A server failure, a truncated answer, and an answer without question. *)
Definition servfail : Msg := message 7 RcodeServerFailure true false [question] [].
Definition truncated : Msg := message 7 RcodeSuccess true true [question] [0%nat].
Definition unasked : Msg := message 7 RcodeSuccess true false [] [0%nat].

Definition record (ttl : Z) : RR :=
  {| Hdr := {| hName := "example.com."; Rrtype := TypeA; Class := ClassINET;
               Ttl := ttl |};
     Rdata := [93; 184; 216; 34] |}.

(** A clock that reads [t] first and a millisecond more at each of the
    next four readings. *)
Definition clock_from (t : Z) (n : nat) : Z :=
  nth n [t; t + 1000000; t + 2000000; t + 3000000] (t + 4000000).

(** The process right after start, holding the record of the answer. *)
Definition start : World BoundedStore.t :=
  {| clock := clock_from (1000 * Second); ticks := 0; heap := [record 5];
     cachedResponses := {| cache := None; cacheOnce := false |};
     constructions := [] |}.

Definition key : CacheKey := derive "example.com." TypeA ClassINET false.

(** The entry the writer records for [response] at second 1000. *)
Definition entry : CachedResponse :=
  {| expiration := 1060 * Second; msg := response |}.

(** The process after a construction that failed: the guard has fired and
    there is no store. *)
Definition after_failure : World BoundedStore.t :=
  {| clock := clock_from (1000 * Second); ticks := 1; heap := [record 5];
     cachedResponses := {| cache := None; cacheOnce := true |};
     constructions := [0] |}.

(** The store [NewSharded] returns for four entries. *)
Definition empty_store : BoundedStore.t :=
  {| BoundedStore.capacity := 4; BoundedStore.entries := [] |}.

(** The store that holds [entry]. *)
Definition store : BoundedStore.t :=
  {| BoundedStore.capacity := 4; BoundedStore.entries := [(key, entry)] |}.

(** A process that holds [entry] and whose clock reads [t] next. *)
Definition cached_at (t : Z) : World BoundedStore.t :=
  {| clock := clock_from t; ticks := 0; heap := [record 60];
     cachedResponses := {| cache := Some store; cacheOnce := true |};
     constructions := [4] |}.

End Sample.

(** A closed double inequality between integers. *)
Ltac in_range := vm_compute; split; [discriminate | reflexivity].

(** Runs a closed call of the reader and provides the state, the message
    found by [pick] in that state, and the world it returns. *)
Ltac exists_reader_result call pick :=
  let v := eval vm_compute in call in
  lazymatch v with
  | Done (?st', _) ?w' =>
      let m := eval vm_compute in (pick st') in
      lazymatch m with
      | Some ?synth => exists st', synth, w'
      end
  end.

(** Runs a closed call of the writer and hands its world to [k]. *)
Ltac with_writer_world call k :=
  let v := eval vm_compute in call in
  lazymatch v with
  | Done _ ?w' => k w'
  end.

(** Runs a closed call of the reader and provides the state, the error and
    the world it returns. *)
Ltac exists_reader_outcome call :=
  let v := eval vm_compute in call in
  lazymatch v with
  | Done (?st', ?e) ?w' => exists st', e, w'
  end.

(** Closes a conjunction of closed equations by evaluation. *)
Ltac by_evaluation := repeat split; vm_compute; reflexivity.

(** * The digest on known inputs *)

Example sha_abc :
  SHA512.Sum512_256 (bytes_of_string "abc")
  = hex_bytes "53048e2681941ef99b2e29b76b4c7dabe4c2d0c634fc6d46e0e2f13107e7af23".
Proof. vm_compute. reflexivity. Qed.

Example sha_empty :
  SHA512.Sum512_256 []
  = hex_bytes "c672b8d1ef56ed28ab87c3622c5114069bdd3ad7b8f9737498d0c01ecef0967a".
Proof. vm_compute. reflexivity. Qed.

Example sha_111 :
  SHA512.Sum512_256 (repeat 97 111)
  = hex_bytes "0239e429f98d0ed61ee8e2a7c30afe98c1c3a80ce5dff62a107e9c538f7632ce".
Proof. vm_compute. reflexivity. Qed.

Example sha_112 :
  SHA512.Sum512_256 (repeat 97 112)
  = hex_bytes "9216b5303edb66504570bee90e48ea5beaa5e9fe9f760bbd3e0460559fc005f6".
Proof. vm_compute. reflexivity. Qed.

Example sha_300 :
  SHA512.Sum512_256 (repeat 97 300)
  = hex_bytes "19f6f40dff1362d4798293b101b08b0e7d6ca4748780c164701ecce2412e3d17".
Proof. vm_compute. reflexivity. Qed.

(** * Key derivation *)

Section KeyDerivation.

Lemma byte_of_mod (v : Z) : byte_of v = v mod 256.
Proof.
  unfold byte_of. change 255 with (Z.ones 8).
  rewrite Z.land_ones by lia. reflexivity.
Qed.

Lemma byte_of_range (v : Z) : 0 <= byte_of v < 256.
Proof. rewrite byte_of_mod. apply Z.mod_pos_bound. lia. Qed.

(** The five header bytes the code assembles in [tmp]. *)
Lemma header_bytes (qtype qclass : Z) (flag : bool) :
  (let tmp := repeat 0 5 in
   let tmp := PutUint16 tmp 0 qtype in
   let tmp := PutUint16 tmp 2 qclass in
   if flag then <[4%nat := 1]> tmp else tmp)
  = le16 qtype ++ le16 qclass ++ [if flag then 1 else 0].
Proof.
  cbv [PutUint16 repeat le16 app insert list_insert].
  rewrite !byte_of_mod, !Z.shiftr_div_pow2 by lia.
  destruct flag; reflexivity.
Qed.

Lemma le16_value_le16 (v : Z) : 0 <= v < 65536 -> le16_value (le16 v) = v.
Proof.
  intros Hv. unfold le16, le16_value.
  rewrite (Z.mod_small (v / 256)) by (split; [apply Z.div_pos | apply Z.div_lt_upper_bound]; lia).
  pose proof (Z.div_mod v 256). lia.
Qed.

Lemma be_bytes_length (x : Z) : length (SHA512.be_bytes x) = 8%nat.
Proof. reflexivity. Qed.

Lemma be_bytes_range (x : Z) : Forall (fun b => 0 <= b < 256) (SHA512.be_bytes x).
Proof.
  unfold SHA512.be_bytes. apply Forall_map, Forall_forall.
  intros i _. apply byte_of_range.
Qed.

Lemma Sum512_256_length (data : list Z) : length (SHA512.Sum512_256 data) = 32%nat.
Proof.
  unfold SHA512.Sum512_256. cbv zeta.
  rewrite !length_app, !be_bytes_length. reflexivity.
Qed.

Lemma Sum512_256_range (data : list Z) :
  Forall (fun b => 0 <= b < 256) (SHA512.Sum512_256 data).
Proof.
  unfold SHA512.Sum512_256. cbv zeta.
  repeat (apply Forall_app; split); apply be_bytes_range.
Qed.

(** The code's key on a message with a first question, whatever follows. *)
Lemma computeCacheKey_question (pluginsState : PluginsState) (msg : Msg)
    (question : QuestionEntry) (rest : list QuestionEntry) :
  Question msg = question :: rest ->
  computeCacheKey pluginsState msg
  = Some (derive (Name question) (Qtype question) (Qclass question)
            (dnssec pluginsState)).
Proof.
  intros Hq. unfold computeCacheKey. rewrite Hq.
  pose proof (header_bytes (Qtype question) (Qclass question) (dnssec pluginsState)) as Hh.
  cbv zeta in Hh |- *. rewrite Hh.
  unfold SHA512.Sum, SHA512.Write, SHA512.New512_256, derive.
  cbn [SHA512.written]. reflexivity.
Qed.

Lemma computeCacheKey_no_question (pluginsState : PluginsState) (msg : Msg) :
  Question msg = [] -> computeCacheKey pluginsState msg = None.
Proof. intros Hq. unfold computeCacheKey. rewrite Hq. reflexivity. Qed.

End KeyDerivation.

(** * The heap of records *)

Section Heap.

Context {Cache : Type}.
Implicit Types (w : World Cache) (h : list RR) (ls : list loc) (vs : list RR).

Lemma with_Ttl_idem (ttl : Z) (r : RR) : with_Ttl ttl (with_Ttl ttl r) = with_Ttl ttl r.
Proof. reflexivity. Qed.

Lemma allocated_values h ls :
  allocated h ls -> exists vs, Forall2 (fun l r => h !! l = Some r) ls vs.
Proof.
  induction 1 as [|l ls Hl _ [vs IH]].
  - exists []. constructor.
  - destruct (lookup_lt_is_Some_2 h l Hl) as [r Hr].
    exists (r :: vs). constructor; assumption.
Qed.

Lemma values_allocated h ls vs :
  Forall2 (fun l r => h !! l = Some r) ls vs -> allocated h ls.
Proof.
  induction 1 as [|l r ls vs Hl _ IH]; constructor; [|assumption].
  eapply lookup_lt_Some, Hl.
Qed.

Lemma deref_values h ls vs :
  Forall2 (fun l r => h !! l = Some r) ls vs -> deref h ls = map Some vs.
Proof.
  induction 1 as [|l r ls vs Hl _ IH]; [reflexivity|].
  cbn. rewrite Hl. f_equal. exact IH.
Qed.

Lemma deref_app h ls1 ls2 : deref h (ls1 ++ ls2) = deref h ls1 ++ deref h ls2.
Proof. apply map_app. Qed.

Lemma allocated_app h ls1 ls2 :
  allocated h (ls1 ++ ls2) <-> allocated h ls1 /\ allocated h ls2.
Proof. apply Forall_app. Qed.

Lemma allocated_grow h h' ls :
  (length h <= length h')%nat -> allocated h ls -> allocated h' ls.
Proof.
  intros Hle Hal. eapply Forall_impl; [exact Hal|].
  intros l Hl. cbn in Hl |- *. lia.
Qed.

(** Copying the records of a section: the copies sit at the end of the
    heap, in order. *)
Lemma collect_copyRR ls : forall w vs,
  Forall2 (fun l r => heap w !! l = Some r) ls vs ->
  collect copyRR ls w
  = Done (seq (length (heap w)) (length ls)) (with_heap w (heap w ++ vs)).
Proof.
  induction ls as [|l ls IH]; intros w vs HF; inversion HF as [|? r ? vs' Hl HF']; subst.
  - cbn. unfold ret. rewrite app_nil_r. destruct w; reflexivity.
  - cbn [collect]. unfold bind at 1. unfold copyRR, bind, load at 1.
    rewrite Hl. unfold alloc.
    rewrite (IH _ vs').
    + unfold ret. cbn. rewrite length_app, <- app_assoc. cbn.
      replace (length (heap w) + 1)%nat with (S (length (heap w))) by lia.
      reflexivity.
    + cbn. eapply Forall2_impl; [exact HF'|].
      intros l' r' Hl'. cbn in Hl'. apply lookup_app_l_Some. exact Hl'.
Qed.

Lemma lookup_retimed (ttl : Z) ls h (i : nat) :
  retimed ttl ls h !! i
  = (fun r => if bool_decide (i ∈ ls) then with_Ttl ttl r else r) <$> h !! i.
Proof. unfold retimed. apply list_lookup_imap. Qed.

Lemma lookup_retimed_in (ttl : Z) ls h (i : nat) :
  i ∈ ls -> retimed ttl ls h !! i = with_Ttl ttl <$> h !! i.
Proof. intros Hi. rewrite lookup_retimed, bool_decide_eq_true_2; done. Qed.

Lemma lookup_retimed_notin (ttl : Z) ls h (i : nat) :
  i ∉ ls -> retimed ttl ls h !! i = h !! i.
Proof.
  intros Hi. rewrite lookup_retimed, bool_decide_eq_false_2 by done.
  destruct (h !! i); reflexivity.
Qed.

Lemma length_retimed (ttl : Z) ls h : length (retimed ttl ls h) = length h.
Proof. unfold retimed. apply length_imap. Qed.

Lemma retimed_nil (ttl : Z) h : retimed ttl [] h = h.
Proof.
  apply list_eq. intros i. rewrite lookup_retimed_notin; [reflexivity|].
  apply not_elem_of_nil.
Qed.

Lemma retimed_cons (ttl : Z) (l : loc) ls h r :
  h !! l = Some r ->
  retimed ttl ls (<[l := with_Ttl ttl r]> h) = retimed ttl (l :: ls) h.
Proof.
  intros Hl. apply list_eq. intros i. rewrite !lookup_retimed.
  destruct (decide (i = l)) as [->|Hne].
  - rewrite list_lookup_insert_eq by (eapply lookup_lt_Some, Hl).
    rewrite Hl. cbn.
    rewrite (bool_decide_eq_true_2 (l ∈ l :: ls)) by (apply elem_of_cons; left; reflexivity).
    destruct (bool_decide (l ∈ ls)); reflexivity.
  - rewrite list_lookup_insert_ne by done.
    destruct (decide (i ∈ ls)) as [Hin|Hnin].
    + rewrite !bool_decide_eq_true_2; [reflexivity| |assumption].
      apply elem_of_cons; right; exact Hin.
    + rewrite !bool_decide_eq_false_2; [reflexivity| |assumption].
      intros Hin. apply elem_of_cons in Hin as [?|?]; done.
Qed.

(** Copies of [vs] appended to a heap, retimed, are retimed copies. *)
Lemma retimed_fresh (ttl : Z) h vs :
  retimed ttl (seq (length h) (length vs)) (h ++ vs) = h ++ map (with_Ttl ttl) vs.
Proof.
  apply list_eq. intros i.
  destruct (decide (i < length h)%nat) as [Hlt|Hge].
  - rewrite lookup_retimed_notin.
    + rewrite !lookup_app_l by lia. reflexivity.
    + rewrite elem_of_seq. lia.
  - rewrite !lookup_app_r by lia. rewrite list_lookup_fmap.
    destruct (vs !! (i - length h)%nat) as [r|] eqn:Hr.
    + rewrite lookup_retimed_in.
      * rewrite lookup_app_r by lia. rewrite Hr. reflexivity.
      * apply lookup_lt_Some in Hr. rewrite elem_of_seq. lia.
    + rewrite lookup_retimed, lookup_app_r by lia. rewrite Hr. reflexivity.
Qed.

Lemma setTtl_spec (ttl : Z) (l : loc) w r :
  heap w !! l = Some r ->
  setTtl ttl l w = Done tt (with_heap w (<[l := with_Ttl ttl r]> (heap w))).
Proof.
  intros Hr. unfold setTtl, bind, load, store. rewrite Hr. cbn. rewrite Hr.
  reflexivity.
Qed.

Lemma forEach_setTtl (ttl : Z) ls : forall w,
  allocated (heap w) ls ->
  forEach (setTtl ttl) ls w = Done tt (with_heap w (retimed ttl ls (heap w))).
Proof.
  induction ls as [|l ls IH]; intros w Hal.
  - cbn. unfold ret. rewrite retimed_nil. destruct w; reflexivity.
  - apply Forall_cons in Hal as [Hl Hal].
    destruct (lookup_lt_is_Some_2 _ _ Hl) as [r Hr].
    cbn [forEach]. unfold bind at 1. rewrite (setTtl_spec _ _ _ _ Hr).
    rewrite IH.
    + unfold with_heap. cbn [heap clock ticks cachedResponses constructions].
      rewrite (retimed_cons _ _ _ _ _ Hr). reflexivity.
    + cbn. unfold allocated. rewrite length_insert. exact Hal.
Qed.

Lemma updateTTL_spec (m : Msg) (expiration : Z) w :
  allocated (heap w) (records m) ->
  updateTTL m expiration w
  = Done tt
      (with_heap (with_ticks w (S (ticks w)))
         (retimed (remaining_seconds (expiration - clock w (ticks w)))
            (records m) (heap w))).
Proof.
  intros Hal. unfold updateTTL, bind, Now.
  rewrite forEach_setTtl by exact Hal. reflexivity.
Qed.

(** The deep copy of a message whose records are allocated. *)
Lemma Copy_spec (m : Msg) w vs :
  Forall2 (fun l r => heap w !! l = Some r) (records m) vs ->
  let n := length (heap w) in
  Copy m w
  = Done (with_sections m
            (seq n (length (Answer m)))
            (seq (n + length (Answer m)) (length (Ns m)))
            (seq (n + length (Answer m) + length (Ns m)) (length (Extra m))))
         (with_heap w (heap w ++ vs)).
Proof.
  intros HF. cbv zeta. unfold records in HF.
  apply Forall2_app_inv_l in HF as (va & vr & Ha & HF & ->).
  apply Forall2_app_inv_l in HF as (vn & ve & Hn & He & ->).
  unfold Copy, bind.
  rewrite (collect_copyRR _ _ va Ha).
  rewrite (collect_copyRR _ _ vn).
  2:{ cbn. eapply Forall2_impl; [exact Hn|]. intros ? ? Hl. apply lookup_app_l_Some, Hl. }
  rewrite (collect_copyRR _ _ ve).
  2:{ cbn. eapply Forall2_impl; [exact He|]. intros ? ? Hl.
      apply lookup_app_l_Some, lookup_app_l_Some, Hl. }
  unfold ret. cbn. rewrite !length_app, <- !app_assoc.
  rewrite (Forall2_length _ _ _ Ha), (Forall2_length _ _ _ Hn).
  reflexivity.
Qed.

End Heap.

(** * The bounded store satisfies the laws *)

Section BoundedStoreLaws.

Lemma find_firstn {A} (P : A -> bool) (l : list A) : forall n x,
  find P (firstn n l) = Some x -> find P l = Some x.
Proof.
  induction l as [|a l IH]; intros [|n] x; cbn; try discriminate.
  destruct (P a); [trivial|]. apply IH.
Qed.

Lemma has_key_spec (k : CacheKey) (e : CacheKey * CachedResponse) :
  BoundedStore.has_key k e = true <-> fst e = k.
Proof. unfold BoundedStore.has_key. apply bool_decide_eq_true. Qed.

Lemma find_filter_other (k k' : CacheKey) (es : list (CacheKey * CachedResponse)) :
  k' <> k ->
  find (BoundedStore.has_key k')
    (List.filter (fun e => negb (BoundedStore.has_key k e)) es)
  = find (BoundedStore.has_key k') es.
Proof.
  intros Hne. induction es as [|e es IH]; [reflexivity|].
  cbn [find List.filter].
  destruct (BoundedStore.has_key k e) eqn:Hk; cbn [negb].
  - apply has_key_spec in Hk.
    destruct (BoundedStore.has_key k' e) eqn:Hk'; [|exact IH].
    apply has_key_spec in Hk'. congruence.
  - cbn [find]. destruct (BoundedStore.has_key k' e); [reflexivity|exact IH].
Qed.

#[export] Instance BoundedStore_laws : SieveCacheLaws BoundedStore.t.
Proof.
  split.
  - reflexivity.
  - intros c k v. cbn. unfold BoundedStore.has_key. cbn.
    rewrite bool_decide_eq_true_2 by reflexivity. reflexivity.
  - intros c k v k' e. cbn. unfold BoundedStore.has_key at 1. cbn.
    destruct (decide (k = k')) as [->|Hne].
    + rewrite bool_decide_eq_true_2 by reflexivity. cbn.
      intros [= <-]. left. reflexivity.
    + rewrite bool_decide_eq_false_2 by exact Hne.
      destruct (find _ (firstn _ _)) as [x|] eqn:Hf; [|discriminate].
      apply find_firstn in Hf. rewrite find_filter_other in Hf by congruence.
      intros Hx. right. rewrite Hf. exact Hx.
Qed.

End BoundedStoreLaws.

(** * The reader, case by case *)

Section Reader.

Context `{SieveCache Cache}.
Implicit Types (w : World Cache) (st : PluginsState).

Lemma seq_sections (n a b c : nat) :
  seq n a ++ seq (n + a) b ++ seq (n + a + b) c = seq n (a + b + c).
Proof. rewrite <- Nat.add_assoc, !seq_app. rewrite <- app_assoc, Nat.add_assoc. reflexivity. Qed.

(** A query with no question makes the reader panic, in every world. *)
Lemma reader_no_question st (query : Msg) w :
  Question query = [] -> PluginCache.Eval st query w = Panic.
Proof.
  intros Hq. unfold PluginCache.Eval, bind.
  rewrite (computeCacheKey_no_question _ _ Hq). reflexivity.
Qed.

(** Before the store exists the reader returns at once. *)
Lemma reader_unconstructed st (query : Msg) w key :
  computeCacheKey st query = Some key ->
  cache (cachedResponses w) = None ->
  PluginCache.Eval st query w = Done (st, None) w.
Proof.
  intros Hk Hc. unfold PluginCache.Eval, bind. rewrite Hk. cbn.
  rewrite Hc. reflexivity.
Qed.

(** A key the store does not hold. *)
Lemma reader_absent st (query : Msg) w key c :
  computeCacheKey st query = Some key ->
  cache (cachedResponses w) = Some c ->
  fst (Get c key) = None ->
  PluginCache.Eval st query w
  = Done (st, None) (with_cache w (Some (snd (Get c key)))).
Proof.
  intros Hk Hc Hg. unfold PluginCache.Eval, bind. rewrite Hk. cbn.
  rewrite Hc. destruct (Get c key) as [found c'].
  cbn in Hg. subst found. reflexivity.
Qed.

Lemma records_synthesized (query stored : Msg) (n : nat) :
  records (synthesized query stored n) = seq n (length (records stored)).
Proof.
  unfold records, synthesized. cbn.
  rewrite seq_sections, !length_app, Nat.add_assoc. reflexivity.
Qed.

(** A key the store holds: both branches of the expiration test. *)
Lemma reader_found st (query : Msg) w key c cached vs :
  computeCacheKey st query = Some key ->
  cache (cachedResponses w) = Some c ->
  fst (Get c key) = Some cached ->
  Forall2 (fun l r => heap w !! l = Some r) (records (msg cached)) vs ->
  let synth := synthesized query (msg cached) (length (heap w)) in
  let t1 := clock w (ticks w) in
  let t2 := clock w (S (ticks w)) in
  let t3 := clock w (S (S (ticks w))) in
  let store := {| cache := Some (snd (Get c key));
                  cacheOnce := cacheOnce (cachedResponses w) |} in
  PluginCache.Eval st query w
  = if expiration cached <? t1 then
      Done (set_stale st synth, None)
        {| clock := clock w; ticks := S (S (S (ticks w)));
           heap := heap w
             ++ map (with_Ttl (remaining_seconds (t2 + StaleResponseTTL - t3))) vs;
           cachedResponses := store; constructions := constructions w |}
    else
      Done (set_synth st synth, None)
        {| clock := clock w; ticks := S (S (ticks w));
           heap := heap w
             ++ map (with_Ttl (remaining_seconds (expiration cached - t2))) vs;
           cachedResponses := store; constructions := constructions w |}.
Proof.
  intros Hk Hc Hg HF. cbv zeta.
  pose proof (records_synthesized query (msg cached) (length (heap w))) as Hrec.
  rewrite (Forall2_length _ _ _ HF) in Hrec.
  unfold PluginCache.Eval, bind at 1. rewrite Hk. cbn [orPanic]. unfold ret at 1.
  rewrite Hc. destruct (Get c key) as [found c'].
  cbn in Hg. subst found. cbn [snd]. destruct cached as [exp stored].
  cbn [expiration msg] in *.
  unfold bind at 1. rewrite (Copy_spec stored _ vs) by exact HF.
  cbn [heap with_cache with_heap clock ticks cachedResponses constructions].
  change (answering query (with_sections stored _ _ _))
    with (synthesized query stored (length (heap w))).
  unfold bind at 1, Now at 1.
  cbn [heap with_cache with_heap clock ticks cachedResponses constructions].
  destruct (exp <? clock w (ticks w)).
  - unfold bind at 1, Now at 1.
    cbn [heap with_ticks clock ticks cachedResponses constructions].
    unfold bind at 1. rewrite updateTTL_spec.
    + cbn [heap with_ticks with_heap clock ticks cachedResponses constructions cache cacheOnce].
      rewrite Hrec, retimed_fresh. reflexivity.
    + cbn [heap with_ticks with_heap with_cache]. rewrite Hrec.
      unfold allocated. apply Forall_forall.
      intros l Hl. apply elem_of_seq in Hl. rewrite length_app. lia.
  - unfold bind at 1. rewrite updateTTL_spec.
    + cbn [heap with_ticks with_heap clock ticks cachedResponses constructions cache cacheOnce].
      rewrite Hrec, retimed_fresh. reflexivity.
    + cbn [heap with_ticks with_heap with_cache]. rewrite Hrec.
      unfold allocated. apply Forall_forall.
      intros l Hl. apply elem_of_seq in Hl. rewrite length_app. lia.
Qed.

End Reader.

(** * The writer, case by case *)

Section Writer.

Context `{SieveCache Cache}.
Implicit Types (w : World Cache) (st : PluginsState).

Lemma status_guard (rcode : Z) :
  negb (rcode =? RcodeSuccess) && negb (rcode =? RcodeNameError)
    && negb (rcode =? RcodeNotAuth)
  = negb (cacheable_status rcode).
Proof.
  unfold cacheable_status.
  destruct (rcode =? RcodeSuccess), (rcode =? RcodeNameError),
    (rcode =? RcodeNotAuth); reflexivity.
Qed.

(** A response the guards turn away leaves the world as it is. *)
Lemma writer_skips st (response : Msg) w :
  cacheable_status (Rcode response) = false \/ Truncated response = true ->
  PluginCacheResponse.Eval st response w = Done None w.
Proof.
  intros Hg. unfold PluginCacheResponse.Eval. rewrite status_guard.
  destruct (cacheable_status (Rcode response)); cbn [negb].
  - destruct Hg as [Hg|Hg]; [discriminate|]. rewrite Hg. reflexivity.
  - reflexivity.
Qed.

(** Past the guards, a response with no question makes the writer panic. *)
Lemma writer_no_question st (response : Msg) w :
  cacheable_status (Rcode response) = true ->
  Truncated response = false ->
  Question response = [] ->
  PluginCacheResponse.Eval st response w = Panic.
Proof.
  intros Hs Ht Hq. unfold PluginCacheResponse.Eval.
  rewrite status_guard, Hs, Ht. cbn [negb]. unfold bind.
  rewrite (computeCacheKey_no_question _ _ Hq). reflexivity.
Qed.

Lemma collect_ttls ls : forall w vs,
  Forall2 (fun l r => heap w !! l = Some r) ls vs ->
  collect (fun l => let* r := load l in ret (Ttl (Hdr r))) ls w
  = Done (map (fun r => Ttl (Hdr r)) vs) w.
Proof.
  induction ls as [|l ls IH]; intros w vs HF;
    inversion HF as [|? r ? vs' Hl HF']; subst; [reflexivity|].
  cbn [collect]. unfold bind at 1. unfold bind at 1, load at 1.
  rewrite Hl. unfold ret at 1. unfold bind at 1.
  rewrite (IH _ vs' HF'). reflexivity.
Qed.

(** The freshness policy only reads the heap. *)
Lemma getMinTTL_reads (response : Msg) (a b c d : Z) w :
  allocated (heap w) (records response) ->
  exists ttl, getMinTTL response a b c d w = Done ttl w.
Proof.
  intros Hal. unfold records in Hal.
  apply allocated_app in Hal as [Han Hal].
  apply allocated_app in Hal as [Hns _].
  unfold getMinTTL.
  set (positive := (Rcode response =? RcodeSuccess) && _).
  assert (allocated (heap w) (if positive then Answer response else Ns response))
    as Hsec by (destruct positive; assumption).
  destruct (allocated_values _ _ Hsec) as [vs Hvs].
  eexists. unfold bind at 1. rewrite (collect_ttls _ _ _ Hvs). reflexivity.
Qed.

Section PastGuards.

Variables (st : PluginsState) (response : Msg) (w : World Cache)
  (key : CacheKey) (ttl : Z).
Hypothesis Hstatus : cacheable_status (Rcode response) = true.
Hypothesis Htrunc : Truncated response = false.
Hypothesis Hkey : computeCacheKey st response = Some key.
Hypothesis Hal : allocated (heap w) (records response).
Hypothesis Httl :
  getMinTTL response (cacheMinTTL st) (cacheMaxTTL st)
    (cacheNegMinTTL st) (cacheNegMaxTTL st) w = Done ttl w.

Let t1 := clock w (ticks w).
Let t2 := clock w (S (ticks w)).
Let entry := {| expiration := t1 + ttl; msg := response |}.

Lemma writer_prefix :
  PluginCacheResponse.Eval st response w
  = (let* cacheInitError := PluginCacheResponse.cacheOnce_Do st in
     match cacheInitError with
     | Some err => ret (Some ("failed to initialize the cache: " ++ err)%string)
     | None =>
         let* _ := PluginCacheResponse.insertIfConstructed key entry in
         let* _ := updateTTL response (expiration entry) in
         ret None
     end) (with_ticks w (S (ticks w))).
Proof.
  unfold PluginCacheResponse.Eval.
  rewrite status_guard, Hstatus, Htrunc. cbn [negb].
  unfold bind at 1. rewrite Hkey. cbn [orPanic]. unfold ret at 1.
  unfold bind at 1. rewrite Httl.
  unfold bind at 1, Now at 1. reflexivity.
Qed.

(** The guard has fired before: no construction, an insertion if the store
    exists, and the rewriting of the response. *)
Lemma writer_guard_fired :
  cacheOnce (cachedResponses w) = true ->
  PluginCacheResponse.Eval st response w
  = Done None
      {| clock := clock w; ticks := S (S (ticks w));
         heap := retimed (remaining_seconds (t1 + ttl - t2)) (records response) (heap w);
         cachedResponses :=
           {| cache := (fun c => Insert c key entry) <$> cache (cachedResponses w);
              cacheOnce := true |};
         constructions := constructions w |}.
Proof.
  intros Honce. rewrite writer_prefix.
  unfold bind at 1, PluginCacheResponse.cacheOnce_Do.
  cbn [cachedResponses with_ticks]. rewrite Honce.
  unfold bind at 1, PluginCacheResponse.insertIfConstructed.
  cbn [cachedResponses with_ticks].
  destruct (cache (cachedResponses w)) as [c|] eqn:Hc.
  - unfold bind at 1. rewrite updateTTL_spec by exact Hal.
    unfold ret, with_heap, with_ticks, with_cache, entry, t1, t2.
    cbn [clock ticks heap cachedResponses constructions cache cacheOnce
         expiration fmap option_fmap option_map].
    rewrite Honce. reflexivity.
  - unfold bind at 1. rewrite updateTTL_spec by exact Hal.
    unfold ret, with_heap, with_ticks, entry, t1, t2.
    cbn [clock ticks heap cachedResponses constructions cache cacheOnce
         expiration fmap option_fmap option_map].
    destruct (cachedResponses w) as [oc once]. cbn in Hc, Honce. subst.
    reflexivity.
Qed.

(** The first call past the guards, when the construction succeeds. *)
Lemma writer_constructs c :
  cacheOnce (cachedResponses w) = false ->
  NewSharded (cacheSize st) = inl c ->
  PluginCacheResponse.Eval st response w
  = Done None
      {| clock := clock w; ticks := S (S (ticks w));
         heap := retimed (remaining_seconds (t1 + ttl - t2)) (records response) (heap w);
         cachedResponses :=
           {| cache := Some (Insert c key entry); cacheOnce := true |};
         constructions := cacheSize st :: constructions w |}.
Proof.
  intros Honce Hnew. rewrite writer_prefix.
  unfold bind at 1, PluginCacheResponse.cacheOnce_Do.
  cbn [cachedResponses with_ticks]. rewrite Honce, Hnew.
  unfold bind at 1, PluginCacheResponse.insertIfConstructed.
  cbn [cachedResponses with_ticks with_attempt with_cache cache].
  unfold bind at 1. rewrite updateTTL_spec by exact Hal.
  reflexivity.
Qed.

(** The first call past the guards, when the construction fails. *)
Lemma writer_construction_fails err :
  cacheOnce (cachedResponses w) = false ->
  NewSharded (cacheSize st) = inr err ->
  PluginCacheResponse.Eval st response w
  = Done (Some ("failed to initialize the cache: " ++ err)%string)
      {| clock := clock w; ticks := S (ticks w); heap := heap w;
         cachedResponses :=
           {| cache := cache (cachedResponses w); cacheOnce := true |};
         constructions := cacheSize st :: constructions w |}.
Proof.
  intros Honce Hnew. rewrite writer_prefix.
  unfold bind at 1, PluginCacheResponse.cacheOnce_Do.
  cbn [cachedResponses with_ticks]. rewrite Honce, Hnew.
  reflexivity.
Qed.

End PastGuards.

End Writer.

(** * The key: what it hashes and what it ignores *)

Section KeyClaims.

Lemma same_letter_normalized (a b : Z) :
  same_letter a b = true -> NormalizeRawQName [a] = NormalizeRawQName [b].
Proof.
  unfold same_letter, NormalizeRawQName. cbn [map]. intros Hs. f_equal.
  destruct (65 <=? a) eqn:Ha1, (a <=? 90) eqn:Ha2,
           (65 <=? b) eqn:Hb1, (b <=? 90) eqn:Hb2,
           (a =? b) eqn:Hab, (b =? a + 32) eqn:Hba, (a =? b + 32) eqn:Hab';
    cbn in Hs |- *; try discriminate; lia.
Qed.

Lemma equal_fold_normalized (n1 : list Z) : forall n2,
  equal_fold n1 n2 = true -> NormalizeRawQName n1 = NormalizeRawQName n2.
Proof.
  induction n1 as [|a n1 IH]; intros [|b n2] Heq; cbn in Heq; try discriminate.
  - reflexivity.
  - apply andb_prop in Heq as [Hab Hrest].
    change (NormalizeRawQName [a] ++ NormalizeRawQName n1
            = NormalizeRawQName [b] ++ NormalizeRawQName n2).
    rewrite (same_letter_normalized a b Hab), (IH n2 Hrest). reflexivity.
Qed.

(** Claim C1.  For every query message with at least one question, the key
    the code derives is SHA-512/256 of a 5-byte header followed by the
    normalized bytes of the first question's name; the header is the
    question type in two bytes low byte first, the question class in two
    bytes low byte first, and one byte that is 1 when DNSSEC was requested
    and 0 otherwise; the key has 32 bytes. *)
Theorem key_is_digest_of_header_and_name
    (pluginsState : PluginsState) (msg : Msg)
    (question : QuestionEntry) (rest : list QuestionEntry) :
  Question msg = question :: rest ->
  0 <= Qtype question < 65536 ->
  0 <= Qclass question < 65536 ->
  exists header key,
    computeCacheKey pluginsState msg = Some key
    /\ key = SHA512.Sum512_256
               (header ++ NormalizeRawQName (bytes_of_string (Name question)))
    /\ length header = 5%nat
    /\ Forall (fun b => 0 <= b < 256) header
    /\ le16_value (firstn 2 header) = Qtype question
    /\ le16_value (firstn 2 (skipn 2 header)) = Qclass question
    /\ skipn 4 header = [if dnssec pluginsState then 1 else 0]
    /\ length key = 32%nat
    /\ Forall (fun b => 0 <= b < 256) key.
Proof.
  intros Hq Htype Hclass.
  exists (le16 (Qtype question) ++ le16 (Qclass question)
            ++ [if dnssec pluginsState then 1 else 0]).
  eexists. split; [apply (computeCacheKey_question _ _ _ _ Hq)|].
  split; [reflexivity|].
  split; [reflexivity|].
  split.
  { unfold le16. cbn [app].
    repeat match goal with
           | |- Forall _ (_ :: _) => constructor
           | |- Forall _ [] => constructor
           end; try (apply Z.mod_pos_bound; lia).
    destruct (dnssec pluginsState); lia. }
  split; [apply (le16_value_le16 _ Htype)|].
  split; [apply (le16_value_le16 _ Hclass)|].
  split; [reflexivity|].
  split; [apply Sum512_256_length|apply Sum512_256_range].
Qed.

Lemma key_is_digest_of_header_and_name_witness :
  Question Sample.query = Sample.question :: []
  /\ 0 <= Qtype Sample.question < 65536
  /\ 0 <= Qclass Sample.question < 65536
  /\ exists header key,
       computeCacheKey Sample.config Sample.query = Some key
       /\ key = SHA512.Sum512_256
                  (header ++ NormalizeRawQName (bytes_of_string (Name Sample.question)))
       /\ length header = 5%nat
       /\ Forall (fun b => 0 <= b < 256) header
       /\ le16_value (firstn 2 header) = Qtype Sample.question
       /\ le16_value (firstn 2 (skipn 2 header)) = Qclass Sample.question
       /\ skipn 4 header = [if dnssec Sample.config then 1 else 0]
       /\ length key = 32%nat
       /\ Forall (fun b => 0 <= b < 256) key.
Proof.
  split; [reflexivity|].
  split; [in_range|].
  split; [in_range|].
  apply (key_is_digest_of_header_and_name Sample.config Sample.query
           Sample.question []); [reflexivity| |]; in_range.
Defined.

(** The key of the sample query, as [sha512.Sum512_256] computes it. *)
Example sample_key :
  computeCacheKey Sample.config Sample.query
  = Some (hex_bytes "e0f61a9195c78009bb5ece1695cf7b2c68498979a50d37a5907cb581feff78fc").
Proof. vm_compute. reflexivity. Qed.

(** Claim C9.  Two queries whose first questions have names equal up to
    ASCII case, the same type and the same class, derived under the same
    DNSSEC flag, get the same key, whatever else the messages and the
    per-query states hold. *)
Theorem key_depends_on_four_fields_only
    (st1 st2 : PluginsState) (q1 q2 : Msg)
    (question1 question2 : QuestionEntry) (rest1 rest2 : list QuestionEntry) :
  Question q1 = question1 :: rest1 ->
  Question q2 = question2 :: rest2 ->
  names_equal_fold (Name question1) (Name question2) = true ->
  Qtype question1 = Qtype question2 ->
  Qclass question1 = Qclass question2 ->
  dnssec st1 = dnssec st2 ->
  computeCacheKey st1 q1 = computeCacheKey st2 q2
  /\ exists key, computeCacheKey st1 q1 = Some key.
Proof.
  intros H1 H2 Hname Htype Hclass Hflag.
  rewrite (computeCacheKey_question _ _ _ _ H1), (computeCacheKey_question _ _ _ _ H2).
  split; [|eexists; reflexivity].
  unfold derive. rewrite Htype, Hclass, Hflag.
  rewrite (equal_fold_normalized _ _ Hname). reflexivity.
Qed.

Lemma key_depends_on_four_fields_only_witness :
  Question Sample.QUERY = Sample.QUESTION :: []
  /\ Question Sample.query = Sample.question :: []
  /\ names_equal_fold (Name Sample.QUESTION) (Name Sample.question) = true
  /\ Qtype Sample.QUESTION = Qtype Sample.question
  /\ Qclass Sample.QUESTION = Qclass Sample.question
  /\ dnssec Sample.other_config = dnssec Sample.config
  /\ computeCacheKey Sample.other_config Sample.QUERY
     = computeCacheKey Sample.config Sample.query
  /\ exists key, computeCacheKey Sample.other_config Sample.QUERY = Some key.
Proof.
  repeat (split; [reflexivity|]).
  apply (key_depends_on_four_fields_only Sample.other_config Sample.config
           Sample.QUERY Sample.query Sample.QUESTION Sample.question [] []);
    reflexivity.
Defined.

End KeyClaims.

Lemma sample_key_derived (st : PluginsState) (m : Msg) :
  Question m = [Sample.question] -> dnssec st = false ->
  computeCacheKey st m = Some Sample.key.
Proof.
  intros Hq Hd. rewrite (computeCacheKey_question st m Sample.question [] Hq).
  rewrite Hd. reflexivity.
Qed.

(** * What the effects leave alone *)

Section Frames.

Context {Cache : Type}.
Implicit Types (w : World Cache).

Lemma bind_Done {A B} (m : M Cache A) (k : A -> M Cache B) w b w' :
  bind m k w = Done b w' ->
  exists a w1, m w = Done a w1 /\ k a w1 = Done b w'.
Proof.
  unfold bind. destruct (m w) as [a w1|]; [|discriminate].
  intros Hk. exists a, w1. split; [reflexivity|exact Hk].
Qed.

Lemma same_store_refl w : same_store w w.
Proof. split; reflexivity. Qed.

Lemma same_store_trans w1 w2 w3 :
  same_store w1 w2 -> same_store w2 w3 -> same_store w1 w3.
Proof. intros [H1 H2] [H3 H4]. split; congruence. Qed.

Lemma Now_same_store w t w' : Now w = Done t w' -> same_store w w'.
Proof. intros [= _ <-]. split; reflexivity. Qed.

Lemma load_same w l r w' : load l w = Done r w' -> w' = w.
Proof. unfold load. destruct (heap w !! l); [|discriminate]. intros [= _ <-]. reflexivity. Qed.

Lemma store_same_store w l r u w' : store l r w = Done u w' -> same_store w w'.
Proof.
  unfold store. destruct (heap w !! l); [|discriminate].
  intros [= _ <-]. split; reflexivity.
Qed.

Lemma alloc_same_store w r l w' : alloc r w = Done l w' -> same_store w w'.
Proof. intros [= _ <-]. split; reflexivity. Qed.

Lemma collect_same_store {A B} (f : A -> M Cache B) :
  (forall x w b w', f x w = Done b w' -> same_store w w') ->
  forall l w bs w', collect f l w = Done bs w' -> same_store w w'.
Proof.
  intros Hf. induction l as [|x l IH]; intros w bs w' Hc.
  - injection Hc as _ <-. apply same_store_refl.
  - cbn [collect] in Hc.
    apply bind_Done in Hc as (b & w1 & Hx & Hc).
    apply bind_Done in Hc as (bs' & w2 & Hl & Hc).
    injection Hc as _ <-.
    eapply same_store_trans; [eapply Hf, Hx|eapply IH, Hl].
Qed.

Lemma forEach_same_store {A} (f : A -> M Cache unit) :
  (forall x w u w', f x w = Done u w' -> same_store w w') ->
  forall l w u w', forEach f l w = Done u w' -> same_store w w'.
Proof.
  intros Hf. induction l as [|x l IH]; intros w u w' Hc.
  - injection Hc as _ <-. apply same_store_refl.
  - cbn [forEach] in Hc.
    apply bind_Done in Hc as (b & w1 & Hx & Hc).
    eapply same_store_trans; [eapply Hf, Hx|eapply IH, Hc].
Qed.

Lemma setTtl_same_store (ttl : Z) l w u w' :
  setTtl ttl l w = Done u w' -> same_store w w'.
Proof.
  intros Hs. apply bind_Done in Hs as (r & w1 & Hl & Hs).
  apply load_same in Hl as ->. eapply store_same_store, Hs.
Qed.

Lemma copyRR_same_store l w l' w' :
  copyRR l w = Done l' w' -> same_store w w'.
Proof.
  intros Hs. apply bind_Done in Hs as (r & w1 & Hl & Hs).
  apply load_same in Hl as ->. eapply alloc_same_store, Hs.
Qed.

Lemma updateTTL_same_store (m : Msg) (expiration : Z) w u w' :
  updateTTL m expiration w = Done u w' -> same_store w w'.
Proof.
  intros Hs. apply bind_Done in Hs as (t & w1 & Ht & Hs).
  eapply same_store_trans; [eapply Now_same_store, Ht|].
  eapply forEach_same_store, Hs. intros ? ? ? ?. apply setTtl_same_store.
Qed.

Lemma Copy_same_store (m : Msg) w m' w' :
  Copy m w = Done m' w' -> same_store w w'.
Proof.
  intros Hs.
  apply bind_Done in Hs as (an & w1 & H1 & Hs).
  apply bind_Done in Hs as (ns & w2 & H2 & Hs).
  apply bind_Done in Hs as (ex & w3 & H3 & Hs).
  injection Hs as _ <-.
  assert (forall l w bs w', collect copyRR l w = Done bs w' -> same_store w w')
    as Hc by (apply collect_same_store; intros ? ? ? ?; apply copyRR_same_store).
  eapply same_store_trans; [eapply Hc, H1|].
  eapply same_store_trans; [eapply Hc, H2|eapply Hc, H3].
Qed.

Lemma getMinTTL_same (m : Msg) (a b c d : Z) w ttl w' :
  getMinTTL m a b c d w = Done ttl w' -> w' = w.
Proof.
  intros Hs. apply bind_Done in Hs as (ttls & w1 & Hc & Hs).
  injection Hs as _ <-.
  revert w ttls w1 Hc.
  generalize (if (Rcode m =? RcodeSuccess) && negb (length (Answer m) =? 0)%nat
              then Answer m else Ns m).
  induction l as [|x l IH]; intros w ttls w1 Hc.
  - injection Hc as _ <-. reflexivity.
  - cbn [collect] in Hc.
    apply bind_Done in Hc as (t & w2 & Hx & Hc).
    apply bind_Done in Hc as (ts & w3 & Hl & Hc).
    injection Hc as _ <-.
    apply bind_Done in Hx as (r & w4 & Hr & Hx).
    injection Hx as _ <-. apply load_same in Hr as ->.
    eapply IH, Hl.
Qed.

End Frames.

(** * Once the guard has fired without a store *)

Section Disabled.

Context `{SieveCache Cache}.
Implicit Types (w : World Cache) (st : PluginsState).

Lemma disabled_same_store w w' : same_store w w' -> disabled w -> disabled w'.
Proof. intros [Hs _] [Ho Hc]. unfold disabled. rewrite Hs. split; assumption. Qed.

(** The writer on a disabled cache never reports an error, never calls
    [NewSharded] and leaves the cache disabled. *)
Lemma writer_disabled st (response : Msg) w e w' :
  disabled w ->
  PluginCacheResponse.Eval st response w = Done e w' ->
  e = None /\ disabled w' /\ constructions w' = constructions w.
Proof.
  intros Hd. unfold PluginCacheResponse.Eval.
  destruct (negb _ && negb _ && negb _).
  { intros [= <- <-]. repeat split; apply Hd. }
  destruct (Truncated response).
  { intros [= <- <-]. repeat split; apply Hd. }
  intros He.
  apply bind_Done in He as (key & w1 & Hk & He).
  assert (w1 = w) as ->.
  { destruct (computeCacheKey st response); [|discriminate].
    injection Hk as _ <-. reflexivity. }
  apply bind_Done in He as (ttl & w2 & Ht & He).
  apply getMinTTL_same in Ht as ->.
  apply bind_Done in He as (t & w3 & Hn & He).
  apply Now_same_store in Hn.
  pose proof (disabled_same_store _ _ Hn Hd) as [Ho Hc].
  apply bind_Done in He as (err & w4 & Hdo & He).
  unfold PluginCacheResponse.cacheOnce_Do in Hdo. rewrite Ho in Hdo.
  injection Hdo as <- <-.
  apply bind_Done in He as (u & w5 & Hi & He).
  unfold PluginCacheResponse.insertIfConstructed in Hi. rewrite Hc in Hi.
  injection Hi as _ <-.
  apply bind_Done in He as (u' & w6 & Hu & He).
  injection He as <- <-.
  apply updateTTL_same_store in Hu.
  pose proof (same_store_trans _ _ _ Hn Hu) as Hs.
  split; [reflexivity|]. split; [eapply disabled_same_store; eassumption|apply Hs].
Qed.

(** The reader on a disabled cache changes nothing at all. *)
Lemma reader_disabled st (query : Msg) w st' e w' :
  disabled w ->
  PluginCache.Eval st query w = Done (st', e) w' ->
  st' = st /\ e = None /\ w' = w.
Proof.
  intros [_ Hc] He. unfold PluginCache.Eval in He.
  apply bind_Done in He as (key & w1 & Hk & He).
  destruct (computeCacheKey st query); [|discriminate].
  injection Hk as _ <-. rewrite Hc in He.
  injection He as <- <- <-. repeat split.
Qed.

Lemma later_disabled w w' :
  later w w' -> disabled w ->
  disabled w' /\ constructions w' = constructions w.
Proof.
  induction 1 as [w|w w1 w2 Hcall _ IH]; intros Hd; [split; [exact Hd|reflexivity]|].
  destruct Hcall as [st st' query e w w1 He|st response e w w1 He].
  - apply (reader_disabled _ _ _ _ _ _ Hd) in He as (_ & _ & ->). apply IH, Hd.
  - apply (writer_disabled _ _ _ _ _ Hd) in He as (_ & Hd1 & Hlog).
    destruct (IH Hd1) as [Hd2 Hlog2]. split; [exact Hd2|congruence].
Qed.

End Disabled.

(** * The guards of the writer and the one-time construction *)

Section GuardClaims.

Context `{SieveCache Cache}.
Implicit Types (w : World Cache) (st : PluginsState).

(** Claim C5.  A response whose status is none of success, name-error and
    not-authoritative, or whose truncation flag is set, makes the writer
    return nil at once: the world after the call is the world before it, so
    the store is not touched and [NewSharded] is not called. *)
Theorem uncacheable_response_is_skipped st (response : Msg) w :
  (Rcode response <> RcodeSuccess /\ Rcode response <> RcodeNameError
   /\ Rcode response <> RcodeNotAuth)
  \/ Truncated response = true ->
  PluginCacheResponse.Eval st response w = Done None w.
Proof.
  intros Hg. apply writer_skips.
  destruct Hg as [(H0 & H3 & H9)|Ht]; [left|right; exact Ht].
  unfold cacheable_status.
  apply Z.eqb_neq in H0, H3, H9. rewrite H0, H3, H9. reflexivity.
Qed.

(** Claim C10.  Key derivation reads the first question unconditionally: on
    a message with no question it panics, and so does the reader in every
    world, and so does the writer exactly when the message gets past the
    status and truncation guards. *)
Theorem question_section_must_not_be_empty st (msg : Msg) w :
  Question msg = [] ->
  computeCacheKey st msg = None
  /\ PluginCache.Eval st msg w = Panic
  /\ (PluginCacheResponse.Eval st msg w = Panic
      <-> cacheable_status (Rcode msg) = true /\ Truncated msg = false).
Proof.
  intros Hq. split; [apply computeCacheKey_no_question, Hq|].
  split; [apply reader_no_question, Hq|].
  split.
  - intros Hp.
    destruct (cacheable_status (Rcode msg)) eqn:Hs.
    + destruct (Truncated msg) eqn:Ht; [|split; reflexivity].
      rewrite writer_skips in Hp by (right; exact Ht). discriminate.
    + rewrite writer_skips in Hp by (left; exact Hs). discriminate.
  - intros [Hs Ht]. apply writer_no_question; assumption.
Qed.

(** Claim C2, as the code has it.  When the construction fails on the first
    call that reaches it, that call returns the construction error, inserts
    nothing and does not touch the response; the guard has fired, so no
    later call of either plugin constructs the store: the log of
    constructions stays as that call left it, the store stays nil, and
    every later writer call returns nil. *)
Theorem failed_construction_disables_the_cache st (response : Msg) w key err :
  cacheable_status (Rcode response) = true ->
  Truncated response = false ->
  computeCacheKey st response = Some key ->
  allocated (heap w) (records response) ->
  cachedResponses w = {| cache := None; cacheOnce := false |} ->
  NewSharded (cacheSize st) = inr err ->
  exists w1,
    PluginCacheResponse.Eval st response w
    = Done (Some ("failed to initialize the cache: " ++ err)%string) w1
    /\ cache (cachedResponses w1) = None
    /\ heap w1 = heap w
    /\ constructions w1 = cacheSize st :: constructions w
    /\ forall w2, later w1 w2 ->
         cache (cachedResponses w2) = None
         /\ constructions w2 = constructions w1
         /\ forall st' response' e w3,
              PluginCacheResponse.Eval st' response' w2 = Done e w3 ->
              e = None /\ constructions w3 = constructions w1.
Proof.
  intros Hs Ht Hk Hal Hw Hnew.
  destruct (getMinTTL_reads response (cacheMinTTL st) (cacheMaxTTL st)
              (cacheNegMinTTL st) (cacheNegMaxTTL st) w Hal) as [ttl Httl].
  eexists. split.
  { apply (writer_construction_fails st response w key ttl Hs Ht Hk Httl err);
      [rewrite Hw; reflexivity|exact Hnew]. }
  cbn [cachedResponses cache heap constructions]. rewrite Hw. cbn [cache].
  repeat (split; [reflexivity|]).
  intros w2 Hlater.
  apply later_disabled in Hlater as [Hd Hlog]; [|split; reflexivity].
  split; [apply Hd|]. split; [exact Hlog|].
  intros st' response' e w3 He.
  apply (writer_disabled _ _ _ _ _ Hd) in He as (-> & _ & Hlog3).
  split; [reflexivity|]. rewrite Hlog3. exact Hlog.
Qed.

End GuardClaims.

Lemma uncacheable_response_is_skipped_witness :
  ((Rcode Sample.servfail <> RcodeSuccess /\ Rcode Sample.servfail <> RcodeNameError
    /\ Rcode Sample.servfail <> RcodeNotAuth)
   \/ Truncated Sample.servfail = true)
  /\ PluginCacheResponse.Eval Sample.config Sample.servfail Sample.start
     = Done None Sample.start.
Proof.
  assert ((Rcode Sample.servfail <> RcodeSuccess /\ Rcode Sample.servfail <> RcodeNameError
           /\ Rcode Sample.servfail <> RcodeNotAuth)
          \/ Truncated Sample.servfail = true) as Hg
    by (left; repeat split; discriminate).
  split; [exact Hg|].
  apply (uncacheable_response_is_skipped Sample.config Sample.servfail Sample.start Hg).
Defined.

Lemma question_section_must_not_be_empty_witness :
  Question Sample.unasked = []
  /\ computeCacheKey Sample.config Sample.unasked = None
  /\ PluginCache.Eval Sample.config Sample.unasked Sample.start = Panic
  /\ (PluginCacheResponse.Eval Sample.config Sample.unasked Sample.start = Panic
      <-> cacheable_status (Rcode Sample.unasked) = true
          /\ Truncated Sample.unasked = false).
Proof.
  split; [reflexivity|].
  apply (question_section_must_not_be_empty Sample.config Sample.unasked Sample.start).
  reflexivity.
Defined.

(** Claim C2 as stated fails: the first call, with a capacity of zero,
    returns the construction error; the next call asks for four entries,
    which [NewSharded] would grant, yet it returns nil without calling
    [NewSharded] (the log still holds the one call with capacity zero) and
    the store is still nil. *)
Lemma failed_construction_is_not_retried :
  exists err w1 w2,
    PluginCacheResponse.Eval Sample.no_capacity Sample.response Sample.start
    = Done (Some err) w1
    /\ constructions w1 = [0]
    /\ (exists c, NewSharded (Cache := BoundedStore.t) (cacheSize Sample.config) = inl c)
    /\ PluginCacheResponse.Eval Sample.config Sample.response w1 = Done None w2
    /\ constructions w2 = [0]
    /\ cache (cachedResponses w2) = None.
Proof.
  exists "failed to initialize the cache: capacity must be greater than 0"%string.
  with_writer_world
    (PluginCacheResponse.Eval Sample.no_capacity Sample.response Sample.start)
    ltac:(fun w1 =>
      exists w1;
      with_writer_world (PluginCacheResponse.Eval Sample.config Sample.response w1)
        ltac:(fun w2 => exists w2)).
  split; [vm_compute; reflexivity|].
  split; [reflexivity|].
  split; [eexists; reflexivity|].
  split; [vm_compute; reflexivity|].
  split; reflexivity.
Qed.

Lemma failed_construction_disables_the_cache_witness :
  cacheable_status (Rcode Sample.response) = true
  /\ Truncated Sample.response = false
  /\ computeCacheKey Sample.no_capacity Sample.response = Some Sample.key
  /\ allocated (heap Sample.start) (records Sample.response)
  /\ cachedResponses Sample.start = {| cache := None; cacheOnce := false |}
  /\ NewSharded (Cache := BoundedStore.t) (cacheSize Sample.no_capacity)
     = inr "capacity must be greater than 0"%string
  /\ exists w1,
       PluginCacheResponse.Eval Sample.no_capacity Sample.response Sample.start
       = Done (Some ("failed to initialize the cache: "
                       ++ "capacity must be greater than 0")%string) w1
       /\ cache (cachedResponses w1) = None
       /\ heap w1 = heap Sample.start
       /\ constructions w1 = cacheSize Sample.no_capacity :: constructions Sample.start
       /\ forall w2, later w1 w2 ->
            cache (cachedResponses w2) = None
            /\ constructions w2 = constructions w1
            /\ forall st' response' e w3,
                 PluginCacheResponse.Eval st' response' w2 = Done e w3 ->
                 e = None /\ constructions w3 = constructions w1.
Proof.
  assert (allocated (heap Sample.start) (records Sample.response)) as Hal
    by (repeat constructor).
  split; [reflexivity|]. split; [reflexivity|].
  split; [exact (sample_key_derived Sample.no_capacity Sample.response eq_refl eq_refl)|].
  split; [exact Hal|]. split; [reflexivity|]. split; [reflexivity|].
  apply (failed_construction_disables_the_cache Sample.no_capacity Sample.response
           Sample.start Sample.key "capacity must be greater than 0");
    [reflexivity|reflexivity| |exact Hal|reflexivity|reflexivity].
  exact (sample_key_derived Sample.no_capacity Sample.response eq_refl eq_refl).
Defined.

(** * The reader on a hit *)

Section Hits.

Context `{SieveCacheLaws Cache}.
Implicit Types (w : World Cache) (st : PluginsState) (h : list RR).

Lemma deref_fresh h (xs : list RR) : forall pre post,
  deref (h ++ pre ++ xs ++ post) (seq (length h + length pre) (length xs))
  = map Some xs.
Proof.
  induction xs as [|x xs IH]; intros pre post; [reflexivity|].
  cbn [length seq deref map].
  f_equal.
  - rewrite lookup_app_r by lia.
    replace (length h + length pre - length h)%nat with (length pre + 0)%nat by lia.
    rewrite lookup_app_r by lia.
    replace (length pre + 0 - length pre)%nat with 0%nat by lia. reflexivity.
  - specialize (IH (pre ++ [x]) post).
    rewrite length_app in IH. cbn [length] in IH.
    replace (length h + (length pre + 1))%nat with (S (length h + length pre)) in IH by lia.
    rewrite <- app_assoc in IH. exact IH.
Qed.

(** What the sections of the reader's copy point to once the copies [vs] of
    the stored records, changed by [f], sit at the end of the heap. *)
Lemma synthesized_view h (query stored : Msg) vs (f : RR -> RR) :
  Forall2 (fun l r => h !! l = Some r) (records stored) vs ->
  let synth := synthesized query stored (length h) in
  let h' := h ++ map f vs in
  deref h' (Answer synth) = map (fmap f) (deref h (Answer stored))
  /\ deref h' (Ns synth) = map (fmap f) (deref h (Ns stored))
  /\ deref h' (Extra synth) = map (fmap f) (deref h (Extra stored)).
Proof.
  unfold records. intros HF. cbv zeta.
  apply Forall2_app_inv_l in HF as (va & vr & Ha & HF & ->).
  apply Forall2_app_inv_l in HF as (vn & ve & Hn & He & ->).
  rewrite (deref_values _ _ _ Ha), (deref_values _ _ _ Hn), (deref_values _ _ _ He).
  rewrite !map_app, !map_map. cbn [fmap option_fmap option_map].
  unfold synthesized. cbn [Answer Ns Extra answering with_sections].
  rewrite (Forall2_length _ _ _ Ha), (Forall2_length _ _ _ Hn), (Forall2_length _ _ _ He).
  rewrite <- !map_map with (f := f) (g := Some).
  rewrite <- (length_map f va), <- (length_map f vn), <- (length_map f ve).
  split; [|split].
  - pose proof (deref_fresh h (map f va) [] (map f vn ++ map f ve)) as Hd.
    cbn [length app] in Hd. rewrite Nat.add_0_r in Hd. exact Hd.
  - pose proof (deref_fresh h (map f vn) (map f va) (map f ve)) as Hd. exact Hd.
  - pose proof (deref_fresh h (map f ve) (map f va ++ map f vn) []) as Hd.
    rewrite length_app, Nat.add_assoc, app_nil_r, <- app_assoc in Hd. exact Hd.
Qed.

(** The copy lives at addresses the heap did not have before. *)
Lemma synthesized_private (query stored : Msg) (n : nat) :
  Forall (fun l => (n <= l)%nat) (records (synthesized query stored n))
  /\ NoDup (records (synthesized query stored n)).
Proof.
  rewrite records_synthesized. split; [|apply NoDup_seq].
  apply Forall_forall. intros l Hl. apply elem_of_seq in Hl. lia.
Qed.

Lemma stale_window (t2 t3 : Z) :
  t2 <= t3 <= t2 + Second / 2 ->
  remaining_seconds (t2 + StaleResponseTTL - t3) = 30.
Proof.
  unfold remaining_seconds, StaleResponseTTL, Second.
  change (1000000000 / 2) with 500000000. intros Ht.
  destruct (Z.leb_spec (t2 + 30 * 1000000000 - t3) 0) as [Hle|Hgt]; [lia|].
  pose proof (Z.div_mod (t2 + 30 * 1000000000 - t3) 1000000000 ltac:(lia)) as Hdm.
  pose proof (Z.mod_pos_bound (t2 + 30 * 1000000000 - t3) 1000000000 ltac:(lia)) as Hb.
  set (q := (t2 + 30 * 1000000000 - t3) / 1000000000) in *.
  set (r := (t2 + 30 * 1000000000 - t3) mod 1000000000) in *.
  destruct (Z.leb_spec 500000000 (t2 + 30 * 1000000000 - t3 - q * 1000000000)); lia.
Qed.

(** Claim C4.  On a hit looked up strictly before the expiration of the
    entry, the reader returns nil and leaves in [synthResponse] a message
    made of new records, copies of the stored ones, which carries the id
    and the question section of the query, has the response flag and
    compression set, keeps every other header field of the stored message,
    and whose records have as TTL the time remaining until the expiration;
    the action is [PluginsActionSynth] and [cacheHit] is set. *)
Theorem fresh_hit_is_answered_from_the_cache st (query : Msg) w key c cached :
  computeCacheKey st query = Some key ->
  cache (cachedResponses w) = Some c ->
  fst (Get c key) = Some cached ->
  allocated (heap w) (records (msg cached)) ->
  clock w (ticks w) < expiration cached ->
  exists st' synth w',
    PluginCache.Eval st query w = Done (st', None) w'
    /\ synthResponse st' = Some synth
    /\ action st' = PluginsActionSynth
    /\ cacheHit st' = true
    /\ Id synth = Id query
    /\ Response synth = true
    /\ Compress synth = true
    /\ Question synth = Question query
    /\ (Opcode synth, Rcode synth, Authoritative synth, Truncated synth,
        RecursionDesired synth, RecursionAvailable synth, Zero synth,
        AuthenticatedData synth, CheckingDisabled synth)
       = (Opcode (msg cached), Rcode (msg cached), Authoritative (msg cached),
          Truncated (msg cached), RecursionDesired (msg cached),
          RecursionAvailable (msg cached), Zero (msg cached),
          AuthenticatedData (msg cached), CheckingDisabled (msg cached))
    /\ Forall (fun l => (length (heap w) <= l)%nat) (records synth)
    /\ NoDup (records synth)
    /\ (forall l, (l < length (heap w))%nat -> heap w' !! l = heap w !! l)
    /\ let ttl := remaining_seconds (expiration cached - clock w (S (ticks w))) in
       deref (heap w') (Answer synth)
       = map (fmap (with_Ttl ttl)) (deref (heap w) (Answer (msg cached)))
       /\ deref (heap w') (Ns synth)
          = map (fmap (with_Ttl ttl)) (deref (heap w) (Ns (msg cached)))
       /\ deref (heap w') (Extra synth)
          = map (fmap (with_Ttl ttl)) (deref (heap w) (Extra (msg cached))).
Proof.
  intros Hk Hc Hg Hal Hfresh.
  destruct (allocated_values _ _ Hal) as [vs Hvs].
  pose proof (reader_found st query w key c cached vs Hk Hc Hg Hvs) as He.
  cbv zeta in He.
  destruct (Z.ltb_spec (expiration cached) (clock w (ticks w))) as [Hlt|_]; [lia|].
  eexists _, _, _. split; [exact He|].
  cbn [synthResponse action cacheHit set_synth heap].
  repeat (split; [reflexivity|]).
  split; [apply synthesized_private|].
  split; [apply synthesized_private|].
  split; [intros l Hl; apply lookup_app_l, Hl|].
  apply (synthesized_view _ _ _ _ _ Hvs).
Qed.

(** Claim C3, as the code has it.  On a hit looked up strictly after the
    expiration of the entry, the reader returns nil and puts under "stale"
    in the session data a message made of new records, copies of the stored
    ones, rewritten for the query like a fresh answer, whose records have as
    TTL the time remaining until the instant read from the clock plus
    [StaleResponseTTL], that is 30 seconds when the clock advances by at
    most half a second between the two readings; the action, the
    synthesized response and the hit flag of the query are left as they
    were; every lookup in the store returns what it returned before and
    the records the heap held are unchanged. *)
Theorem stale_hit_is_kept_aside st (query : Msg) w key c cached :
  computeCacheKey st query = Some key ->
  cache (cachedResponses w) = Some c ->
  fst (Get c key) = Some cached ->
  allocated (heap w) (records (msg cached)) ->
  expiration cached < clock w (ticks w) ->
  exists st' synth w' c',
    PluginCache.Eval st query w = Done (st', None) w'
    /\ sessionData st' !! "stale"%string = Some synth
    /\ action st' = action st
    /\ synthResponse st' = synthResponse st
    /\ cacheHit st' = cacheHit st
    /\ Id synth = Id query
    /\ Response synth = true
    /\ Compress synth = true
    /\ Question synth = Question query
    /\ Forall (fun l => (length (heap w) <= l)%nat) (records synth)
    /\ cache (cachedResponses w') = Some c'
    /\ (forall k, fst (Get c' k) = fst (Get c k))
    /\ (forall l, (l < length (heap w))%nat -> heap w' !! l = heap w !! l)
    /\ let t2 := clock w (S (ticks w)) in
       let t3 := clock w (S (S (ticks w))) in
       let ttl := remaining_seconds (t2 + StaleResponseTTL - t3) in
       (t2 <= t3 <= t2 + Second / 2 -> ttl = 30)
       /\ deref (heap w') (Answer synth)
          = map (fmap (with_Ttl ttl)) (deref (heap w) (Answer (msg cached)))
       /\ deref (heap w') (Ns synth)
          = map (fmap (with_Ttl ttl)) (deref (heap w) (Ns (msg cached)))
       /\ deref (heap w') (Extra synth)
          = map (fmap (with_Ttl ttl)) (deref (heap w) (Extra (msg cached))).
Proof.
  intros Hk Hc Hg Hal Hstale.
  destruct (allocated_values _ _ Hal) as [vs Hvs].
  pose proof (reader_found st query w key c cached vs Hk Hc Hg Hvs) as He.
  cbv zeta in He.
  destruct (Z.ltb_spec (expiration cached) (clock w (ticks w))) as [_|Hge]; [|lia].
  eexists _, _, _, _. split; [exact He|].
  cbn [sessionData action synthResponse cacheHit set_stale heap cachedResponses cache].
  split; [apply lookup_insert_eq|].
  repeat (split; [reflexivity|]).
  split; [apply synthesized_private|].
  split; [reflexivity|].
  split; [intros k; apply Get_Get|].
  split; [intros l Hl; apply lookup_app_l, Hl|].
  cbv zeta. split; [apply stale_window|].
  apply (synthesized_view _ _ _ _ _ Hvs).
Qed.

End Hits.

Lemma sample_entry_found : fst (Get Sample.store Sample.key) = Some Sample.entry.
Proof. vm_compute. reflexivity. Qed.

Lemma sample_entry_allocated (t : Z) :
  allocated (heap (Sample.cached_at t)) (records (msg Sample.entry)).
Proof. repeat constructor. Qed.

Lemma fresh_hit_is_answered_from_the_cache_witness :
  computeCacheKey Sample.config Sample.query = Some Sample.key
  /\ cache (cachedResponses (Sample.cached_at (1010 * Second))) = Some Sample.store
  /\ fst (Get Sample.store Sample.key) = Some Sample.entry
  /\ allocated (heap (Sample.cached_at (1010 * Second))) (records (msg Sample.entry))
  /\ clock (Sample.cached_at (1010 * Second)) (ticks (Sample.cached_at (1010 * Second)))
     < expiration Sample.entry
  /\ exists st' synth w',
       PluginCache.Eval Sample.config Sample.query (Sample.cached_at (1010 * Second))
       = Done (st', None) w'
       /\ synthResponse st' = Some synth
       /\ action st' = PluginsActionSynth
       /\ cacheHit st' = true
       /\ Id synth = Id Sample.query
       /\ Response synth = true
       /\ Compress synth = true
       /\ Question synth = Question Sample.query
       /\ (Opcode synth, Rcode synth, Authoritative synth, Truncated synth,
           RecursionDesired synth, RecursionAvailable synth, Zero synth,
           AuthenticatedData synth, CheckingDisabled synth)
          = (Opcode (msg Sample.entry), Rcode (msg Sample.entry),
             Authoritative (msg Sample.entry), Truncated (msg Sample.entry),
             RecursionDesired (msg Sample.entry),
             RecursionAvailable (msg Sample.entry), Zero (msg Sample.entry),
             AuthenticatedData (msg Sample.entry),
             CheckingDisabled (msg Sample.entry))
       /\ Forall (fun l => (length (heap (Sample.cached_at (1010 * Second))) <= l)%nat)
            (records synth)
       /\ NoDup (records synth)
       /\ (forall l, (l < length (heap (Sample.cached_at (1010 * Second))))%nat ->
             heap w' !! l = heap (Sample.cached_at (1010 * Second)) !! l)
       /\ let ttl := remaining_seconds
                       (expiration Sample.entry
                        - clock (Sample.cached_at (1010 * Second))
                            (S (ticks (Sample.cached_at (1010 * Second))))) in
          deref (heap w') (Answer synth)
          = map (fmap (with_Ttl ttl))
              (deref (heap (Sample.cached_at (1010 * Second))) (Answer (msg Sample.entry)))
          /\ deref (heap w') (Ns synth)
             = map (fmap (with_Ttl ttl))
                 (deref (heap (Sample.cached_at (1010 * Second))) (Ns (msg Sample.entry)))
          /\ deref (heap w') (Extra synth)
             = map (fmap (with_Ttl ttl))
                 (deref (heap (Sample.cached_at (1010 * Second))) (Extra (msg Sample.entry))).
Proof.
  split; [exact (sample_key_derived Sample.config Sample.query eq_refl eq_refl)|].
  split; [reflexivity|].
  split; [vm_compute; reflexivity|].
  split; [repeat constructor|].
  split; [vm_compute; reflexivity|].
  apply (fresh_hit_is_answered_from_the_cache Sample.config Sample.query
           (Sample.cached_at (1010 * Second)) Sample.key Sample.store Sample.entry).
  - exact (sample_key_derived Sample.config Sample.query eq_refl eq_refl).
  - reflexivity.
  - vm_compute; reflexivity.
  - repeat constructor.
  - vm_compute; reflexivity.
Defined.

(** The served TTL of the sample: 50 seconds remain at second 1010. *)
Example fresh_hit_sample :
  exists st' synth w',
    PluginCache.Eval Sample.config Sample.query (Sample.cached_at (1010 * Second))
    = Done (st', None) w'
    /\ synthResponse st' = Some synth
    /\ Answer synth = [1%nat]
    /\ heap w' = [Sample.record 60; Sample.record 50].
Proof.
  exists_reader_result
    (PluginCache.Eval Sample.config Sample.query (Sample.cached_at (1010 * Second)))
    synthResponse.
  by_evaluation.
Qed.

(** Claim C3 as stated fails at the expiration itself: a lookup whose clock
    reading equals the expiration of the entry is answered from the cache
    like a fresh hit (with a TTL of zero), and nothing is put aside as
    stale. *)
Lemma lookup_at_expiration_is_a_fresh_hit :
  clock (Sample.cached_at (1060 * Second)) (ticks (Sample.cached_at (1060 * Second)))
  = expiration Sample.entry
  /\ fst (Get Sample.store Sample.key) = Some Sample.entry
  /\ exists st' synth w',
       PluginCache.Eval Sample.config Sample.query (Sample.cached_at (1060 * Second))
       = Done (st', None) w'
       /\ action st' = PluginsActionSynth
       /\ cacheHit st' = true
       /\ synthResponse st' = Some synth
       /\ sessionData st' !! "stale"%string = None
       /\ deref (heap w') (Answer synth) = [Some (Sample.record 0)].
Proof.
  split; [vm_compute; reflexivity|].
  split; [vm_compute; reflexivity|].
  exists_reader_result
    (PluginCache.Eval Sample.config Sample.query (Sample.cached_at (1060 * Second)))
    synthResponse.
  by_evaluation.
Qed.

Lemma stale_hit_is_kept_aside_witness :
  SieveCacheLaws BoundedStore.t
  /\ computeCacheKey Sample.config Sample.query = Some Sample.key
  /\ cache (cachedResponses (Sample.cached_at (1065 * Second))) = Some Sample.store
  /\ fst (Get Sample.store Sample.key) = Some Sample.entry
  /\ allocated (heap (Sample.cached_at (1065 * Second))) (records (msg Sample.entry))
  /\ expiration Sample.entry
     < clock (Sample.cached_at (1065 * Second)) (ticks (Sample.cached_at (1065 * Second)))
  /\ exists st' synth w' c',
       PluginCache.Eval Sample.config Sample.query (Sample.cached_at (1065 * Second))
       = Done (st', None) w'
       /\ sessionData st' !! "stale"%string = Some synth
       /\ action st' = action Sample.config
       /\ synthResponse st' = synthResponse Sample.config
       /\ cacheHit st' = cacheHit Sample.config
       /\ Id synth = Id Sample.query
       /\ Response synth = true
       /\ Compress synth = true
       /\ Question synth = Question Sample.query
       /\ Forall (fun l => (length (heap (Sample.cached_at (1065 * Second))) <= l)%nat)
            (records synth)
       /\ cache (cachedResponses w') = Some c'
       /\ (forall k, fst (Get c' k) = fst (Get Sample.store k))
       /\ (forall l, (l < length (heap (Sample.cached_at (1065 * Second))))%nat ->
             heap w' !! l = heap (Sample.cached_at (1065 * Second)) !! l)
       /\ let t2 := clock (Sample.cached_at (1065 * Second))
                      (S (ticks (Sample.cached_at (1065 * Second)))) in
          let t3 := clock (Sample.cached_at (1065 * Second))
                      (S (S (ticks (Sample.cached_at (1065 * Second))))) in
          let ttl := remaining_seconds (t2 + StaleResponseTTL - t3) in
          (t2 <= t3 <= t2 + Second / 2 -> ttl = 30)
          /\ deref (heap w') (Answer synth)
             = map (fmap (with_Ttl ttl))
                 (deref (heap (Sample.cached_at (1065 * Second))) (Answer (msg Sample.entry)))
          /\ deref (heap w') (Ns synth)
             = map (fmap (with_Ttl ttl))
                 (deref (heap (Sample.cached_at (1065 * Second))) (Ns (msg Sample.entry)))
          /\ deref (heap w') (Extra synth)
             = map (fmap (with_Ttl ttl))
                 (deref (heap (Sample.cached_at (1065 * Second))) (Extra (msg Sample.entry))).
Proof.
  split; [exact BoundedStore_laws|].
  split; [exact (sample_key_derived Sample.config Sample.query eq_refl eq_refl)|].
  split; [reflexivity|].
  split; [vm_compute; reflexivity|].
  split; [repeat constructor|].
  split; [vm_compute; reflexivity|].
  apply (stale_hit_is_kept_aside (Cache := BoundedStore.t) Sample.config Sample.query
           (Sample.cached_at (1065 * Second)) Sample.key Sample.store Sample.entry).
  - exact (sample_key_derived Sample.config Sample.query eq_refl eq_refl).
  - reflexivity.
  - vm_compute; reflexivity.
  - repeat constructor.
  - vm_compute; reflexivity.
Defined.

(** The stale candidate of the sample: the whole grace window of 30 seconds. *)
Example stale_hit_sample :
  exists st' synth w',
    PluginCache.Eval Sample.config Sample.query (Sample.cached_at (1065 * Second))
    = Done (st', None) w'
    /\ sessionData st' !! "stale"%string = Some synth
    /\ action st' = PluginsActionContinue
    /\ cacheHit st' = false
    /\ heap w' = [Sample.record 60; Sample.record 30].
Proof.
  exists_reader_result
    (PluginCache.Eval Sample.config Sample.query (Sample.cached_at (1065 * Second)))
    (fun st' => sessionData st' !! "stale"%string).
  by_evaluation.
Qed.

(** * What one call can do to the world *)

Section Steps.

Context `{SieveCache Cache}.
Implicit Types (w : World Cache) (st : PluginsState).

Lemma forEach_setTtl_allocated (ttl : Z) ls : forall w u w',
  forEach (setTtl ttl) ls w = Done u w' -> allocated (heap w) ls.
Proof.
  induction ls as [|l ls IH]; intros w u w' He; [constructor|].
  cbn [forEach] in He. apply bind_Done in He as (u1 & w1 & Hl & He).
  apply bind_Done in Hl as (r & w0 & Hr & Hs).
  pose proof (load_same _ _ _ _ Hr) as ->.
  unfold load in Hr. destruct (heap w !! l) as [r0|] eqn:Hl0; [|discriminate].
  unfold store in Hs. rewrite Hl0 in Hs. injection Hs as _ <-.
  apply IH in He. cbn [heap with_heap] in He.
  constructor.
  - eapply lookup_lt_Some, Hl0.
  - unfold allocated in He. rewrite length_insert in He. exact He.
Qed.

Lemma updateTTL_allocated (m : Msg) (expiration : Z) w u w' :
  updateTTL m expiration w = Done u w' -> allocated (heap w) (records m).
Proof.
  intros He. apply bind_Done in He as (t & w1 & Ht & He).
  injection Ht as _ <-. apply forEach_setTtl_allocated in He. exact He.
Qed.

Lemma collect_copyRR_grows ls : forall w ls' w',
  collect copyRR ls w = Done ls' w' -> (length (heap w) <= length (heap w'))%nat.
Proof.
  induction ls as [|l ls IH]; intros w ls' w' He.
  - injection He as _ <-. lia.
  - cbn [collect] in He.
    apply bind_Done in He as (l1 & w1 & Hc & He).
    apply bind_Done in He as (ls1 & w2 & Hr & He).
    injection He as _ <-. apply IH in Hr.
    apply bind_Done in Hc as (r & w0 & Hl & Ha).
    apply load_same in Hl as ->. injection Ha as _ <-.
    cbn [heap with_heap] in Hr. rewrite length_app in Hr. cbn in Hr. lia.
Qed.

Lemma Copy_grows (m : Msg) w m' w' :
  Copy m w = Done m' w' -> (length (heap w) <= length (heap w'))%nat.
Proof.
  intros He.
  apply bind_Done in He as (an & w1 & H1 & He).
  apply bind_Done in He as (ns & w2 & H2 & He).
  apply bind_Done in He as (ex & w3 & H3 & He).
  injection He as _ <-.
  apply collect_copyRR_grows in H1, H2, H3. lia.
Qed.

Lemma updateTTL_length (m : Msg) (expiration : Z) w u w' :
  updateTTL m expiration w = Done u w' -> length (heap w') = length (heap w).
Proof.
  intros He. pose proof (updateTTL_allocated _ _ _ _ _ He) as Hal.
  rewrite (updateTTL_spec _ _ _ Hal) in He. injection He as _ <-.
  cbn [heap with_heap]. apply length_retimed.
Qed.

(** Whatever the reader returns, it has not touched the guard or the log of
    constructions, it has not shrunk the heap, and the store is the one it
    looked into. *)
Lemma reader_step st (query : Msg) w st' e w' :
  PluginCache.Eval st query w = Done (st', e) w' ->
  e = None
  /\ constructions w' = constructions w
  /\ cacheOnce (cachedResponses w') = cacheOnce (cachedResponses w)
  /\ (length (heap w) <= length (heap w'))%nat
  /\ match cache (cachedResponses w) with
     | None => w' = w /\ st' = st
     | Some c =>
         exists key, computeCacheKey st query = Some key
                     /\ cache (cachedResponses w') = Some (snd (Get c key))
     end.
Proof.
  intros He. unfold PluginCache.Eval in He.
  apply bind_Done in He as (key & w0 & Hk & He).
  destruct (computeCacheKey st query) as [key0|]; [|discriminate].
  injection Hk as <- <-.
  destruct (cache (cachedResponses w)) as [c|] eqn:Hc.
  2:{ injection He as <- <- <-. repeat split; lia. }
  destruct (Get c key0) as [found c'] eqn:Hg. cbn [snd].
  assert (forall w1, same_store (with_cache w (Some c')) w1 ->
            constructions w1 = constructions w
            /\ cacheOnce (cachedResponses w1) = cacheOnce (cachedResponses w)
            /\ cache (cachedResponses w1) = Some c') as Hsame.
  { intros w1 [Hs1 Hs2]. rewrite Hs1, Hs2. repeat split. }
  destruct found as [[exp stored]|].
  2:{ injection He as <- <- <-.
      destruct (Hsame _ (same_store_refl _)) as (? & ? & ?).
      repeat split; try assumption; [cbn; lia|].
      exists key0. rewrite Hg. split; [reflexivity|assumption]. }
  apply bind_Done in He as (synth & w1 & Hcopy & He).
  pose proof (Copy_same_store _ _ _ _ Hcopy) as Hs1.
  pose proof (Copy_grows _ _ _ _ Hcopy) as Hg1. cbn [heap with_cache] in Hg1.
  apply bind_Done in He as (t & w2 & Hnow & He).
  pose proof (Now_same_store _ _ _ Hnow) as Hs2.
  injection Hnow as _ <-.
  destruct (exp <? t).
  - apply bind_Done in He as (t2 & w3 & Hnow2 & He).
    pose proof (Now_same_store _ _ _ Hnow2) as Hs3.
    injection Hnow2 as _ <-.
    apply bind_Done in He as (u & w4 & Hup & He).
    injection He as <- <- <-.
    pose proof (updateTTL_same_store _ _ _ _ _ Hup) as Hs4.
    apply updateTTL_length in Hup. cbn [heap with_ticks] in Hup.
    destruct (Hsame w4) as (? & ? & ?).
    { eapply same_store_trans; [exact Hs1|].
      eapply same_store_trans; [exact Hs2|].
      eapply same_store_trans; [exact Hs3|exact Hs4]. }
    repeat split; try assumption; [lia|].
    exists key0. rewrite Hg. split; [reflexivity|assumption].
  - apply bind_Done in He as (u & w4 & Hup & He).
    injection He as <- <- <-.
    pose proof (updateTTL_same_store _ _ _ _ _ Hup) as Hs4.
    apply updateTTL_length in Hup. cbn [heap with_ticks] in Hup.
    destruct (Hsame w4) as (? & ? & ?).
    { eapply same_store_trans; [exact Hs1|].
      eapply same_store_trans; [exact Hs2|exact Hs4]. }
    repeat split; try assumption; [lia|].
    exists key0. rewrite Hg. split; [reflexivity|assumption].
Qed.

End Steps.

Section WriterSteps.

Context `{SieveCache Cache}.
Implicit Types (w : World Cache) (st : PluginsState).

(** Past the guards, with the key derived and the TTL computed, the writer
    returns in one of three ways: the construction fails; the guard had
    fired; the construction succeeds.  It returns nil only if every record
    of the response is allocated. *)
Lemma writer_past_guards st (response : Msg) w key ttl e w' :
  cacheable_status (Rcode response) = true ->
  Truncated response = false ->
  computeCacheKey st response = Some key ->
  getMinTTL response (cacheMinTTL st) (cacheMaxTTL st)
    (cacheNegMinTTL st) (cacheNegMaxTTL st) w = Done ttl w ->
  PluginCacheResponse.Eval st response w = Done e w' ->
  let t1 := clock w (ticks w) in
  let t2 := clock w (S (ticks w)) in
  let entry := {| expiration := t1 + ttl; msg := response |} in
  let rewritten :=
    retimed (remaining_seconds (t1 + ttl - t2)) (records response) (heap w) in
  (exists err,
     cacheOnce (cachedResponses w) = false
     /\ NewSharded (cacheSize st) = inr err
     /\ e = Some ("failed to initialize the cache: " ++ err)%string
     /\ w' = {| clock := clock w; ticks := S (ticks w); heap := heap w;
                cachedResponses :=
                  {| cache := cache (cachedResponses w); cacheOnce := true |};
                constructions := cacheSize st :: constructions w |})
  \/ (allocated (heap w) (records response)
      /\ e = None
      /\ ((cacheOnce (cachedResponses w) = true
           /\ w' = {| clock := clock w; ticks := S (S (ticks w)); heap := rewritten;
                      cachedResponses :=
                        {| cache := (fun c => Insert c key entry)
                                      <$> cache (cachedResponses w);
                           cacheOnce := true |};
                      constructions := constructions w |})
          \/ (exists c,
                cacheOnce (cachedResponses w) = false
                /\ NewSharded (cacheSize st) = inl c
                /\ w' = {| clock := clock w; ticks := S (S (ticks w)); heap := rewritten;
                           cachedResponses :=
                             {| cache := Some (Insert c key entry); cacheOnce := true |};
                           constructions := cacheSize st :: constructions w |}))).
Proof.
  intros Hs Ht Hk Httl He. cbv zeta.
  pose proof He as He0.
  rewrite (writer_prefix st response w key ttl Hs Ht Hk Httl) in He0.
  apply bind_Done in He0 as (err & w1 & Hdo & He0).
  unfold PluginCacheResponse.cacheOnce_Do in Hdo.
  cbn [cachedResponses with_ticks] in Hdo.
  destruct (cacheOnce (cachedResponses w)) eqn:Honce.
  - injection Hdo as <- <-.
    apply bind_Done in He0 as (u & w2 & Hi & He0).
    apply bind_Done in He0 as (u2 & w3 & Hup & _).
    apply updateTTL_allocated in Hup.
    assert (heap w2 = heap w) as Hh.
    { unfold PluginCacheResponse.insertIfConstructed in Hi.
      destruct (cache _); injection Hi as _ <-; reflexivity. }
    rewrite Hh in Hup.
    rewrite (writer_guard_fired st response w key ttl Hs Ht Hk Hup Httl Honce) in He.
    injection He as <- <-. right. split; [exact Hup|]. split; [reflexivity|].
    left. split; reflexivity.
  - destruct (NewSharded (cacheSize st)) as [c|err0] eqn:Hnew.
    + injection Hdo as <- <-.
      apply bind_Done in He0 as (u & w2 & Hi & He0).
      apply bind_Done in He0 as (u2 & w3 & Hup & _).
      apply updateTTL_allocated in Hup.
      assert (heap w2 = heap w) as Hh.
      { unfold PluginCacheResponse.insertIfConstructed in Hi.
        destruct (cache _); injection Hi as _ <-; reflexivity. }
      rewrite Hh in Hup.
      rewrite (writer_constructs st response w key ttl Hs Ht Hk Hup Httl c Honce Hnew) in He.
      injection He as <- <-. right. split; [exact Hup|]. split; [reflexivity|].
      right. exists c. repeat split. 
    + rewrite (writer_construction_fails st response w key ttl Hs Ht Hk Httl err0 Honce Hnew) in He.
      injection He as <- <-. left. exists err0. repeat split.
Qed.

(** Whatever the writer returns, the heap has kept its length; [NewSharded]
    was called at most once, and only if the guard had not fired; and the
    store is the one before, or that one (or a new one) with the response
    inserted, in which case the response passed the guards, has a key and
    points to allocated records. *)
Lemma writer_step st (response : Msg) w e w' :
  PluginCacheResponse.Eval st response w = Done e w' ->
  length (heap w') = length (heap w)
  /\ (cacheOnce (cachedResponses w) = true -> cacheOnce (cachedResponses w') = true)
  /\ (constructions w' = constructions w
      /\ cacheOnce (cachedResponses w') = cacheOnce (cachedResponses w)
      \/ cacheOnce (cachedResponses w) = false
         /\ cacheOnce (cachedResponses w') = true
         /\ constructions w' = cacheSize st :: constructions w)
  /\ (cache (cachedResponses w') = cache (cachedResponses w)
      \/ exists c key ttl,
           (cache (cachedResponses w) = Some c /\ cacheOnce (cachedResponses w) = true
            \/ NewSharded (cacheSize st) = inl c /\ cacheOnce (cachedResponses w) = false)
           /\ cacheable_status (Rcode response) = true
           /\ Truncated response = false
           /\ computeCacheKey st response = Some key
           /\ allocated (heap w) (records response)
           /\ cache (cachedResponses w')
              = Some (Insert c key {| expiration := clock w (ticks w) + ttl;
                                      msg := response |})
           /\ cacheOnce (cachedResponses w') = true).
Proof.
  intros He.
  destruct (cacheable_status (Rcode response)) eqn:Hs.
  2:{ rewrite writer_skips in He by (left; exact Hs). injection He as <- <-.
      repeat split; auto. }
  destruct (Truncated response) eqn:Ht.
  { rewrite writer_skips in He by (right; exact Ht). injection He as <- <-.
    repeat split; auto. }
  pose proof He as He0. unfold PluginCacheResponse.Eval in He0.
  rewrite status_guard, Hs, Ht in He0. cbn [negb] in He0.
  apply bind_Done in He0 as (key & w0 & Hk & He0).
  destruct (computeCacheKey st response) as [key0|] eqn:Hkey; [|discriminate].
  injection Hk as <- <-.
  apply bind_Done in He0 as (ttl & w1 & Httl & _).
  pose proof (getMinTTL_same _ _ _ _ _ _ _ _ Httl) as ->.
  destruct (writer_past_guards st response w key0 ttl e w' Hs Ht Hkey Httl He)
    as [(err & Honce & Hnew & -> & ->)
       |(Hal & -> & [(Honce & ->)|(c & Honce & Hnew & ->)])];
    cbn [heap cachedResponses cache cacheOnce constructions].
  - split; [reflexivity|]. split; [reflexivity|].
    split; [right; repeat split; assumption|]. left. reflexivity.
  - split; [apply length_retimed|]. split; [reflexivity|].
    split; [left; split; [reflexivity|symmetry; exact Honce]|].
    destruct (cache (cachedResponses w)) as [c|] eqn:Hc; [|left; reflexivity].
    right. exists c, key0, ttl. repeat split; auto.
  - split; [apply length_retimed|]. split; [reflexivity|].
    split; [right; repeat split; assumption|].
    right. exists c, key0, ttl. repeat split; auto.
Qed.

End WriterSteps.

(** * Recording a response *)

Section Recording.

Context `{SieveCacheLaws Cache}.
Implicit Types (w : World Cache) (st : PluginsState).

(** The writer past the guards when the store exists or is constructed by
    this call. *)
Lemma writer_available st (response : Msg) w key c ttl :
  cacheable_status (Rcode response) = true ->
  Truncated response = false ->
  computeCacheKey st response = Some key ->
  allocated (heap w) (records response) ->
  getMinTTL response (cacheMinTTL st) (cacheMaxTTL st)
    (cacheNegMinTTL st) (cacheNegMaxTTL st) w = Done ttl w ->
  (cachedResponses w = {| cache := Some c; cacheOnce := true |}
   \/ cacheOnce (cachedResponses w) = false /\ NewSharded (cacheSize st) = inl c) ->
  PluginCacheResponse.Eval st response w
  = Done None
      {| clock := clock w; ticks := S (S (ticks w));
         heap := retimed (remaining_seconds
                            (clock w (ticks w) + ttl - clock w (S (ticks w))))
                   (records response) (heap w);
         cachedResponses :=
           {| cache := Some (Insert c key {| expiration := clock w (ticks w) + ttl;
                                             msg := response |});
              cacheOnce := true |};
         constructions :=
           if cacheOnce (cachedResponses w) then constructions w
           else cacheSize st :: constructions w |}.
Proof.
  intros Hs Ht Hk Hal Httl [Hw|[Honce Hnew]].
  - rewrite (writer_guard_fired st response w key ttl Hs Ht Hk Hal Httl)
      by (rewrite Hw; reflexivity).
    rewrite Hw. reflexivity.
  - rewrite (writer_constructs st response w key ttl Hs Ht Hk Hal Httl c Honce Hnew).
    rewrite Honce. reflexivity.
Qed.

(** Property X1.  A cacheable, complete response with a key and allocated records, met by
    a store that exists or that this call constructs: the writer returns
    nil; the entry found afterwards under the key holds the response and
    expires at the first clock reading plus the TTL of the policy; the TTL
    of every record of the response is the time remaining until that
    expiration at the second clock reading; no other record changes. *)
Theorem cacheable_response_is_recorded st (response : Msg) w key c :
  cacheable_status (Rcode response) = true ->
  Truncated response = false ->
  computeCacheKey st response = Some key ->
  allocated (heap w) (records response) ->
  (cachedResponses w = {| cache := Some c; cacheOnce := true |}
   \/ cacheOnce (cachedResponses w) = false /\ NewSharded (cacheSize st) = inl c) ->
  exists ttl w' c',
    getMinTTL response (cacheMinTTL st) (cacheMaxTTL st)
      (cacheNegMinTTL st) (cacheNegMaxTTL st) w = Done ttl w
    /\ PluginCacheResponse.Eval st response w = Done None w'
    /\ cache (cachedResponses w') = Some c'
    /\ fst (Get c' key)
       = Some {| expiration := clock w (ticks w) + ttl; msg := response |}
    /\ length (heap w') = length (heap w)
    /\ (forall l, l ∉ records response -> heap w' !! l = heap w !! l)
    /\ (forall l, l ∈ records response ->
          heap w' !! l
          = with_Ttl (remaining_seconds
                        (clock w (ticks w) + ttl - clock w (S (ticks w))))
              <$> heap w !! l).
Proof.
  intros Hs Ht Hk Hal Hstore.
  destruct (getMinTTL_reads response (cacheMinTTL st) (cacheMaxTTL st)
              (cacheNegMinTTL st) (cacheNegMaxTTL st) w Hal) as [ttl Httl].
  exists ttl. eexists _, _. split; [exact Httl|].
  split; [apply (writer_available st response w key c ttl Hs Ht Hk Hal Httl Hstore)|].
  cbn [cachedResponses cache heap].
  split; [reflexivity|]. split; [apply Get_Insert|].
  split; [apply length_retimed|].
  split; [intros l Hl; apply lookup_retimed_notin, Hl
         |intros l Hl; apply lookup_retimed_in, Hl].
Qed.

(** Property X2.  For a cacheable, complete response with a key and
    allocated records, met by a store that exists or that this call
    constructs: the entry the writer stores points to the very records of
    the response: after the call every record of the stored entry carries
    the TTL the writer wrote through the response after the insertion, and
    whatever is written later through a pointer of the response is what the
    stored entry points to. *)
Theorem recorded_entry_shares_the_records_of_the_response
    st (response : Msg) w key c :
  cacheable_status (Rcode response) = true ->
  Truncated response = false ->
  computeCacheKey st response = Some key ->
  allocated (heap w) (records response) ->
  (cachedResponses w = {| cache := Some c; cacheOnce := true |}
   \/ cacheOnce (cachedResponses w) = false /\ NewSharded (cacheSize st) = inl c) ->
  exists ttl w' c' cached,
    getMinTTL response (cacheMinTTL st) (cacheMaxTTL st)
      (cacheNegMinTTL st) (cacheNegMaxTTL st) w = Done ttl w
    /\ PluginCacheResponse.Eval st response w = Done None w'
    /\ cache (cachedResponses w') = Some c'
    /\ fst (Get c' key) = Some cached
    /\ records (msg cached) = records response
    /\ deref (heap w') (records (msg cached))
       = map (fmap (with_Ttl (remaining_seconds
                                (expiration cached - clock w (S (ticks w))))))
           (deref (heap w) (records response))
    /\ forall l r, l ∈ records response ->
         l ∈ records (msg cached)
         /\ deref (<[l := r]> (heap w')) [l] = [Some r].
Proof.
  intros Hs Ht Hk Hal Hstore.
  destruct (getMinTTL_reads response (cacheMinTTL st) (cacheMaxTTL st)
              (cacheNegMinTTL st) (cacheNegMaxTTL st) w Hal) as [ttl Httl].
  exists ttl. eexists _, _, _. split; [exact Httl|].
  split; [apply (writer_available st response w key c ttl Hs Ht Hk Hal Httl Hstore)|].
  cbn [cachedResponses cache heap].
  split; [reflexivity|]. split; [apply Get_Insert|].
  cbn [msg expiration].
  split; [reflexivity|]. split.
  - unfold deref. rewrite map_map. apply map_ext_in. intros l Hl.
    apply lookup_retimed_in, list_elem_of_In, Hl.
  - intros l r Hl. split; [exact Hl|]. cbn. f_equal.
    apply list_lookup_insert_eq. rewrite length_retimed.
    unfold allocated in Hal. rewrite Forall_forall in Hal. apply Hal, Hl.
Qed.

End Recording.

(** * Looking up *)

Section Lookups.

Context `{SieveCacheLaws Cache}.
Implicit Types (w : World Cache) (st : PluginsState).

(** Property X3.  A query with a first question, in a world whose stored entries point to
    allocated records: the reader returns nil.  When the store does not
    exist the world is left as it is; on any miss the per-query state, the
    heap, the clock readings made, the guard and the log of constructions
    are left as they are. *)
Theorem lookup_returns_nil st (query : Msg) question rest w :
  Question query = question :: rest ->
  stored_allocated w ->
  exists key st' w',
    computeCacheKey st query = Some key
    /\ PluginCache.Eval st query w = Done (st', None) w'
    /\ (cache (cachedResponses w) = None -> st' = st /\ w' = w)
    /\ (miss w key ->
          st' = st /\ heap w' = heap w /\ ticks w' = ticks w
          /\ cacheOnce (cachedResponses w') = cacheOnce (cachedResponses w)
          /\ constructions w' = constructions w).
Proof.
  intros Hq Hwf.
  pose proof (computeCacheKey_question st query question rest Hq) as Hk.
  eexists. unfold miss.
  destruct (cache (cachedResponses w)) as [c|] eqn:Hc.
  2:{ eexists _, _. split; [exact Hk|].
      split; [apply (reader_unconstructed _ _ _ _ Hk Hc)|].
      split; intros _; repeat split. }
  destruct (fst (Get c (derive (Name question) (Qtype question) (Qclass question)
                          (dnssec st)))) as [cached|] eqn:Hg.
  - destruct (allocated_values _ _ (Hwf c _ cached Hc Hg)) as [vs Hvs].
    pose proof (reader_found st query w _ c cached vs Hk Hc Hg Hvs) as He.
    cbv zeta in He.
    destruct (expiration cached <? clock w (ticks w));
      (eexists _, _; split; [exact Hk|]; split; [exact He|];
       split; [discriminate|intros Hm; discriminate Hm]).
  - eexists _, _. split; [exact Hk|].
    split; [apply (reader_absent _ _ _ _ _ Hk Hc Hg)|].
    split; [discriminate|]. intros _. repeat split.
Qed.

(** Property X4.  Whatever call of the reader returns: the error is nil, [NewSharded] was
    not called, the guard is as it was, a store exists afterwards exactly if
    one existed before, and every lookup in it returns what it returned
    before. *)
Theorem reader_leaves_the_store_as_found st (query : Msg) w st' e w' :
  PluginCache.Eval st query w = Done (st', e) w' ->
  e = None
  /\ constructions w' = constructions w
  /\ cacheOnce (cachedResponses w') = cacheOnce (cachedResponses w)
  /\ (cache (cachedResponses w') = None <-> cache (cachedResponses w) = None)
  /\ forall c c' k,
       cache (cachedResponses w) = Some c ->
       cache (cachedResponses w') = Some c' ->
       fst (Get c' k) = fst (Get c k).
Proof.
  intros He.
  destruct (reader_step st query w st' e w' He) as (-> & Hlog & Honce & _ & Hstore).
  split; [reflexivity|]. split; [exact Hlog|]. split; [exact Honce|].
  destruct (cache (cachedResponses w)) as [c|] eqn:Hc.
  - destruct Hstore as (key & _ & Hc').
    split; [rewrite Hc'; split; discriminate|].
    intros c0 c' k [= <-] Hc0. rewrite Hc' in Hc0. injection Hc0 as <-.
    apply Get_Get.
  - destruct Hstore as [-> _]. rewrite Hc.
    split; [split; reflexivity|]. intros c c' k Hc0. discriminate Hc0.
Qed.

End Lookups.

(** * Along any run of the two plugins *)

Section AlongRuns.

Context `{SieveCacheLaws Cache}.
Implicit Types (w : World Cache) (st : PluginsState).

(** One call either leaves the guard and the log alone, or fires the guard
    and logs one construction. *)
Lemma call_guard w w' :
  call w w' ->
  constructions w' = constructions w
  /\ cacheOnce (cachedResponses w') = cacheOnce (cachedResponses w)
  \/ cacheOnce (cachedResponses w) = false
     /\ cacheOnce (cachedResponses w') = true
     /\ exists capacity, constructions w' = capacity :: constructions w.
Proof.
  intros [st st' query e w0 w1 He|st response e w0 w1 He].
  - destruct (reader_step _ _ _ _ _ _ He) as (_ & Hlog & Honce & _).
    left. split; assumption.
  - destruct (writer_step _ _ _ _ _ He) as (_ & _ & [Hsame|(Hf & Ht & Hlog)] & _).
    + left. exact Hsame.
    + right. split; [exact Hf|]. split; [exact Ht|]. eexists. exact Hlog.
Qed.

(** One call keeps the store if there is one. *)
Lemma call_store w w' :
  call w w' ->
  cache (cachedResponses w) <> None -> cache (cachedResponses w') <> None.
Proof.
  intros [st st' query e w0 w1 He|st response e w0 w1 He] Hsome.
  - destruct (reader_step _ _ _ _ _ _ He) as (_ & _ & _ & _ & Hstore).
    destruct (cache (cachedResponses w0)) as [c|]; [|contradiction].
    destruct Hstore as (key & _ & ->). discriminate.
  - destruct (writer_step _ _ _ _ _ He) as (_ & _ & _ & [->|(c & key & ttl & Hi)]).
    + exact Hsome.
    + destruct Hi as (_ & _ & _ & _ & _ & -> & _). discriminate.
Qed.

(** Property X5.  The one-time guard along a run: once it has fired [NewSharded] is never
    called again; from a world where it has not fired, a run calls
    [NewSharded] at most once, and has fired the guard if it did. *)
Theorem construction_happens_at_most_once w w' :
  later w w' ->
  (cacheOnce (cachedResponses w) = true ->
     cacheOnce (cachedResponses w') = true
     /\ constructions w' = constructions w)
  /\ (constructions w' = constructions w
      \/ cacheOnce (cachedResponses w) = false
         /\ cacheOnce (cachedResponses w') = true
         /\ exists capacity, constructions w' = capacity :: constructions w).
Proof.
  induction 1 as [w|w w1 w2 Hcall _ [IHfired IH]].
  - split; [intros Hf; split; [exact Hf|reflexivity]|left; reflexivity].
  - destruct (call_guard _ _ Hcall) as [[Hlog Honce]|(Hf & Ht & capacity & Hlog)].
    + rewrite Honce in IHfired, IH. rewrite Hlog in IHfired, IH.
      split; [exact IHfired|exact IH].
    + split; [intros Hfired; congruence|].
      right. destruct (IHfired Ht) as [Ht2 Hlog2].
      split; [exact Hf|]. split; [exact Ht2|].
      exists capacity. congruence.
Qed.

(** Property X6.  A store that exists is there after every run: the pointer is never
    reset to nil. *)
Theorem store_is_never_dropped w w' :
  later w w' ->
  cache (cachedResponses w) <> None -> cache (cachedResponses w') <> None.
Proof.
  induction 1 as [w|w w1 w2 Hcall _ IH]; intros Hsome; [exact Hsome|].
  apply IH. eapply call_store; eassumption.
Qed.

(** A property of stored entries that survives the growth of the heap and
    holds of every entry the writer inserts is kept by every call. *)
Lemma call_stored (P : list RR -> CachedResponse -> Prop) :
  constructs_empty ->
  (forall h h' cached, (length h <= length h')%nat -> P h cached -> P h' cached) ->
  (forall st response w key t,
      cacheable_status (Rcode response) = true ->
      Truncated response = false ->
      computeCacheKey st response = Some key ->
      allocated (heap w) (records response) ->
      P (heap w) {| expiration := t; msg := response |}) ->
  forall w w', call w w' -> stored_satisfy P w -> stored_satisfy P w'.
Proof.
  intros Hempty Hgrow Hnew w w'
    [st st' query e w0 w1 He|st response e w0 w1 He] Hinv c' k cached Hc' Hg.
  - destruct (reader_step _ _ _ _ _ _ He) as (_ & _ & _ & Hlen & Hstore).
    destruct (cache (cachedResponses w0)) as [c|] eqn:Hc.
    + destruct Hstore as (key & _ & Hc1). rewrite Hc1 in Hc'. injection Hc' as <-.
      rewrite Get_Get in Hg. apply (Hgrow (heap w0) (heap w1)); [exact Hlen|].
      eapply Hinv; eassumption.
    + destruct Hstore as [-> _]. rewrite Hc in Hc'. discriminate.
  - destruct (writer_step _ _ _ _ _ He)
      as (Hlen & _ & _ & [Hsame|(c & key & ttl & Hfrom & Hs & Ht & Hk & Hal & Hc1 & _)]).
    + rewrite Hsame in Hc'. apply (Hgrow (heap w0) (heap w1)); [rewrite Hlen; reflexivity|].
      eapply Hinv; eassumption.
    + rewrite Hc1 in Hc'. injection Hc' as <-.
      apply Get_Insert_inv in Hg as [->|Hg].
      * apply (Hgrow (heap w0) (heap w1)); [rewrite Hlen; reflexivity|].
        eapply Hnew; eassumption.
      * destruct Hfrom as [[Hc _]|[Hnewc _]].
        -- apply (Hgrow (heap w0) (heap w1)); [rewrite Hlen; reflexivity|]. eapply Hinv; eassumption.
        -- rewrite (Hempty _ _ k Hnewc) in Hg. discriminate.
Qed.

Lemma later_stored (P : list RR -> CachedResponse -> Prop) :
  constructs_empty ->
  (forall h h' cached, (length h <= length h')%nat -> P h cached -> P h' cached) ->
  (forall st response w key t,
      cacheable_status (Rcode response) = true ->
      Truncated response = false ->
      computeCacheKey st response = Some key ->
      allocated (heap w) (records response) ->
      P (heap w) {| expiration := t; msg := response |}) ->
  forall w w', later w w' -> stored_satisfy P w -> stored_satisfy P w'.
Proof.
  intros Hempty Hgrow Hnew w w' Hlater.
  induction Hlater as [w|w w1 w2 Hcall _ IH]; intros Hinv; [exact Hinv|].
  apply IH. eapply call_stored; eassumption.
Qed.

(** Property X7.  Over a store that is empty when constructed, every run keeps the
    records of the stored entries allocated; this holds in particular of
    every world reached from one without a store. *)
Theorem stored_records_stay_allocated w w' :
  constructs_empty ->
  later w w' ->
  (stored_allocated w -> stored_allocated w')
  /\ (cache (cachedResponses w) = None -> stored_allocated w').
Proof.
  intros Hempty Hlater.
  assert (stored_allocated w -> stored_allocated w') as Hkeep.
  { apply (later_stored (fun h cached => allocated h (records (msg cached))) Hempty);
      [|intros; assumption|exact Hlater].
    intros h h' cached Hlen. apply allocated_grow, Hlen. }
  split; [exact Hkeep|].
  intros Hnone. apply Hkeep. intros c k cached Hc. rewrite Hnone in Hc. discriminate.
Qed.

(** Property X8.  Over a store that is empty when constructed, every run keeps this: each
    stored entry is a response with a cacheable status, not truncated, with
    a first question.  So from a world without a store, nothing else is
    ever found in the store. *)
Theorem only_cacheable_responses_are_stored w w' :
  constructs_empty ->
  later w w' ->
  (stored_cacheable w -> stored_cacheable w')
  /\ (cache (cachedResponses w) = None -> stored_cacheable w').
Proof.
  intros Hempty Hlater.
  assert (stored_cacheable w -> stored_cacheable w') as Hkeep.
  { apply (later_stored
             (fun _ cached =>
                cacheable_status (Rcode (msg cached)) = true
                /\ Truncated (msg cached) = false
                /\ Question (msg cached) <> []) Hempty);
      [intros; assumption| |exact Hlater].
    intros st response w0 key t Hs Ht Hk _. cbn [msg].
    split; [exact Hs|]. split; [exact Ht|].
    intros Hq. rewrite (computeCacheKey_no_question _ _ Hq) in Hk. discriminate. }
  split; [exact Hkeep|].
  intros Hnone. apply Hkeep. intros c k cached Hc. rewrite Hnone in Hc. discriminate.
Qed.

End AlongRuns.

(** * Writing then reading, and reading twice *)

Section RoundTrips.

Context `{SieveCacheLaws Cache}.
Implicit Types (w : World Cache) (st : PluginsState) (h : list RR).

Lemma values_retimed (ttl : Z) h (ls0 ls : list nat) vs :
  (forall l, l ∈ ls -> l ∈ ls0) ->
  Forall2 (fun l r => h !! l = Some r) ls vs ->
  Forall2 (fun l r => retimed ttl ls0 h !! l = Some r) ls (map (with_Ttl ttl) vs).
Proof.
  intros Hsub HF. induction HF as [|l r ls vs Hl _ IH]; [constructor|].
  cbn [map]. constructor.
  - rewrite lookup_retimed_in by (apply Hsub, elem_of_cons; left; reflexivity).
    rewrite Hl. reflexivity.
  - apply IH. intros l' Hl'. apply Hsub, elem_of_cons. right. exact Hl'.
Qed.

Lemma deref_retimed (ttl : Z) h (ls0 ls : list nat) :
  (forall l, l ∈ ls -> l ∈ ls0) ->
  deref (retimed ttl ls0 h) ls = map (fmap (with_Ttl ttl)) (deref h ls).
Proof.
  intros Hsub. unfold deref. rewrite map_map. apply map_ext_in.
  intros l Hl. apply lookup_retimed_in, Hsub, list_elem_of_In, Hl.
Qed.

Lemma deref_insert_other h (l : nat) (r : RR) (ls : list nat) :
  l ∉ ls -> deref (<[l := r]> h) ls = deref h ls.
Proof.
  intros Hl. unfold deref. apply map_ext_in. intros l' Hl'.
  apply list_lookup_insert_ne. intros ->. apply Hl, list_elem_of_In, Hl'.
Qed.

Lemma map_fmap_with_Ttl (a b : Z) (xs : list (option RR)) :
  map (fmap (with_Ttl a)) (map (fmap (with_Ttl b)) xs) = map (fmap (with_Ttl a)) xs.
Proof.
  rewrite map_map. apply map_ext. intros [r|]; reflexivity.
Qed.

(** Property X9.  A response the writer records is what the reader serves next for a
    query with the same key, read no later than the expiration: the served
    message has the status of the response, the id and the question section
    of the query, and its records are copies of the records the response
    had, with the time remaining when the reader rewrites them as TTL. *)
Theorem recorded_answer_is_served
    st (response : Msg) w key c ttl st2 (query : Msg) :
  cacheable_status (Rcode response) = true ->
  Truncated response = false ->
  computeCacheKey st response = Some key ->
  allocated (heap w) (records response) ->
  (cachedResponses w = {| cache := Some c; cacheOnce := true |}
   \/ cacheOnce (cachedResponses w) = false /\ NewSharded (cacheSize st) = inl c) ->
  getMinTTL response (cacheMinTTL st) (cacheMaxTTL st)
    (cacheNegMinTTL st) (cacheNegMaxTTL st) w = Done ttl w ->
  computeCacheKey st2 query = Some key ->
  clock w (S (S (ticks w))) <= clock w (ticks w) + ttl ->
  exists w1 st' synth w2,
    PluginCacheResponse.Eval st response w = Done None w1
    /\ PluginCache.Eval st2 query w1 = Done (st', None) w2
    /\ synthResponse st' = Some synth
    /\ action st' = PluginsActionSynth
    /\ cacheHit st' = true
    /\ Id synth = Id query
    /\ Question synth = Question query
    /\ Rcode synth = Rcode response
    /\ let served :=
         remaining_seconds
           (clock w (ticks w) + ttl - clock w (S (S (S (ticks w))))) in
       deref (heap w2) (Answer synth)
       = map (fmap (with_Ttl served)) (deref (heap w) (Answer response))
       /\ deref (heap w2) (Ns synth)
          = map (fmap (with_Ttl served)) (deref (heap w) (Ns response))
       /\ deref (heap w2) (Extra synth)
          = map (fmap (with_Ttl served)) (deref (heap w) (Extra response)).
Proof.
  intros Hs Ht Hk Hal Hstore Httl Hk2 Hfresh.
  pose proof (writer_available st response w key c ttl Hs Ht Hk Hal Httl Hstore) as Hw.
  destruct (allocated_values _ _ Hal) as [vs Hvs].
  set (s1 := remaining_seconds (clock w (ticks w) + ttl - clock w (S (ticks w)))) in *.
  set (entry := {| expiration := clock w (ticks w) + ttl; msg := response |}) in *.
  match type of Hw with _ = Done None ?W => set (w1 := W) in * end.
  assert (Forall2 (fun l r => heap w1 !! l = Some r) (records (msg entry))
            (map (with_Ttl s1) vs)) as Hvs1.
  { cbn [heap w1 msg entry]. apply values_retimed; [trivial|exact Hvs]. }
  pose proof (reader_found st2 query w1 key (Insert c key entry) entry
                (map (with_Ttl s1) vs) Hk2 eq_refl (Get_Insert _ _ _) Hvs1) as He.
  cbv zeta in He. cbn [clock ticks w1 expiration entry] in He.
  destruct (Z.ltb_spec (clock w (ticks w) + ttl) (clock w (S (S (ticks w)))))
    as [Hlt|_]; [lia|].
  eexists _, _, _, _. split; [exact Hw|]. split; [exact He|].
  cbn [synthResponse action cacheHit set_synth heap].
  repeat (split; [reflexivity|]).
  destruct (synthesized_view (heap w1) query response (map (with_Ttl s1) vs)
              (with_Ttl (remaining_seconds
                           (clock w (ticks w) + ttl - clock w (S (S (S (ticks w)))))))
              Hvs1) as (Han & Hns & Hex).
  subst w1 entry. cbn [msg heap] in Han, Hns, Hex |- *. cbv zeta.
  rewrite Han, Hns, Hex.
  unfold records.
  rewrite !deref_retimed, !map_fmap_with_Ttl.
  - repeat split.
  - intros l Hl. rewrite !elem_of_app. auto.
  - intros l Hl. rewrite !elem_of_app. auto.
  - intros l Hl. rewrite !elem_of_app. auto.
Qed.

(** Property X10.  Two lookups in a row that hit the same entry, both read no later than
    its expiration, serve two messages whose records sit at addresses
    distinct from each other and from those of the stored entry: writing a
    record of either message leaves the records of the other and of the
    stored entry as they are. *)
Theorem served_copies_are_private
    st1 st2 (query1 query2 : Msg) w key c cached :
  computeCacheKey st1 query1 = Some key ->
  computeCacheKey st2 query2 = Some key ->
  cache (cachedResponses w) = Some c ->
  fst (Get c key) = Some cached ->
  allocated (heap w) (records (msg cached)) ->
  clock w (ticks w) <= expiration cached ->
  clock w (S (S (ticks w))) <= expiration cached ->
  exists st1' synth1 w1 st2' synth2 w2,
    PluginCache.Eval st1 query1 w = Done (st1', None) w1
    /\ synthResponse st1' = Some synth1
    /\ PluginCache.Eval st2 query2 w1 = Done (st2', None) w2
    /\ synthResponse st2' = Some synth2
    /\ (forall l, l ∈ records synth1 ->
          (l ∉ records synth2) /\ (l ∉ records (msg cached)))
    /\ (forall l, l ∈ records synth2 ->
          (l ∉ records synth1) /\ (l ∉ records (msg cached)))
    /\ (forall l r, l ∈ records synth1 ->
          deref (<[l := r]> (heap w2)) (records synth2)
          = deref (heap w2) (records synth2)
          /\ deref (<[l := r]> (heap w2)) (records (msg cached))
             = deref (heap w2) (records (msg cached)))
    /\ (forall l r, l ∈ records synth2 ->
          deref (<[l := r]> (heap w2)) (records synth1)
          = deref (heap w2) (records synth1)
          /\ deref (<[l := r]> (heap w2)) (records (msg cached))
             = deref (heap w2) (records (msg cached))).
Proof.
  intros Hk1 Hk2 Hc Hg Hal Hfresh1 Hfresh2.
  destruct (allocated_values _ _ Hal) as [vs Hvs].
  pose proof (reader_found st1 query1 w key c cached vs Hk1 Hc Hg Hvs) as He1.
  cbv zeta in He1.
  destruct (Z.ltb_spec (expiration cached) (clock w (ticks w))) as [Hlt|_]; [lia|].
  match type of He1 with _ = Done _ ?W => set (w1 := W) in * end.
  assert (Forall2 (fun l r => heap w1 !! l = Some r) (records (msg cached)) vs) as Hvs1.
  { eapply Forall2_impl; [exact Hvs|]. intros l r Hl. cbn [heap w1].
    apply lookup_app_l_Some, Hl. }
  assert (fst (Get (snd (Get c key)) key) = Some cached) as Hg1
    by (rewrite Get_Get; exact Hg).
  pose proof (reader_found st2 query2 w1 key (snd (Get c key)) cached vs
                Hk2 eq_refl Hg1 Hvs1) as He2.
  cbv zeta in He2. cbn [clock ticks w1] in He2.
  destruct (Z.ltb_spec (expiration cached) (clock w (S (S (ticks w)))))
    as [Hlt|_]; [lia|].
  eexists _, _, _, _, _, _. split; [exact He1|]. split; [reflexivity|].
  split; [exact He2|]. split; [reflexivity|].
  rewrite !records_synthesized. cbn [heap w1].
  rewrite length_app, length_map, (Forall2_length _ _ _ Hvs).
  assert (forall l, l ∈ records (msg cached) -> (l < length (heap w))%nat) as Hold.
  { intros l Hl. unfold allocated in Hal. rewrite Forall_forall in Hal. apply Hal, Hl. }
  assert (forall l, l ∈ seq (length (heap w)) (length vs) ->
            (l ∉ seq (length (heap w) + length vs) (length vs))
            /\ (l ∉ records (msg cached))) as Hfirst.
  { intros l Hl. apply elem_of_seq in Hl. split.
    - rewrite elem_of_seq. lia.
    - intros Hin. apply Hold in Hin. lia. }
  assert (forall l, l ∈ seq (length (heap w) + length vs) (length vs) ->
            (l ∉ seq (length (heap w)) (length vs))
            /\ (l ∉ records (msg cached))) as Hsecond.
  { intros l Hl. apply elem_of_seq in Hl. split.
    - rewrite elem_of_seq. lia.
    - intros Hin. apply Hold in Hin. lia. }
  split; [exact Hfirst|]. split; [exact Hsecond|]. split.
  - intros l r Hl. destruct (Hfirst l Hl) as [Hn1 Hn2].
    split; apply deref_insert_other; assumption.
  - intros l r Hl. destruct (Hsecond l Hl) as [Hn1 Hn2].
    split; apply deref_insert_other; assumption.
Qed.

End RoundTrips.

(** * What the hashed bytes tell apart *)

Section HashedBytes.

Lemma normalized_equal_fold (n1 : list Z) : forall n2,
  NormalizeRawQName n1 = NormalizeRawQName n2 -> equal_fold n1 n2 = true.
Proof.
  induction n1 as [|a n1 IH]; intros [|b n2] Heq; try discriminate; [reflexivity|].
  unfold NormalizeRawQName in Heq. cbn [map] in Heq.
  injection Heq as Hab Hrest.
  cbn [equal_fold]. rewrite (IH n2 Hrest), andb_true_r.
  unfold same_letter.
  destruct (Z.leb_spec 65 a), (Z.leb_spec a 90), (Z.leb_spec 65 b), (Z.leb_spec b 90);
    cbn [andb] in Hab |- *;
    destruct (Z.eqb_spec a b), (Z.eqb_spec b (a + 32)), (Z.eqb_spec a (b + 32));
    cbn; try reflexivity; lia.
Qed.

Lemma le16_injective (v1 v2 : Z) :
  0 <= v1 < 65536 -> 0 <= v2 < 65536 -> le16 v1 = le16 v2 -> v1 = v2.
Proof.
  intros H1 H2 Heq.
  rewrite <- (le16_value_le16 v1 H1), <- (le16_value_le16 v2 H2), Heq. reflexivity.
Qed.

(** Property X11.  The key is the digest of [hashed]; and for question types and classes
    that fit 16 bits, two questions are hashed from the same bytes exactly
    when they have the same type, the same class, the same DNSSEC flag and
    names equal up to ASCII case: the header has a fixed width, so the name
    cannot run into it. *)
Theorem hashed_bytes_tell_questions_apart
    (st1 st2 : PluginsState) (q1 q2 : Msg)
    (question1 question2 : QuestionEntry) (rest1 rest2 : list QuestionEntry) :
  Question q1 = question1 :: rest1 ->
  Question q2 = question2 :: rest2 ->
  0 <= Qtype question1 < 65536 -> 0 <= Qclass question1 < 65536 ->
  0 <= Qtype question2 < 65536 -> 0 <= Qclass question2 < 65536 ->
  computeCacheKey st1 q1 = Some (SHA512.Sum512_256 (hashed (dnssec st1) question1))
  /\ computeCacheKey st2 q2 = Some (SHA512.Sum512_256 (hashed (dnssec st2) question2))
  /\ (hashed (dnssec st1) question1 = hashed (dnssec st2) question2
      <-> Qtype question1 = Qtype question2
          /\ Qclass question1 = Qclass question2
          /\ dnssec st1 = dnssec st2
          /\ names_equal_fold (Name question1) (Name question2) = true).
Proof.
  intros H1 H2 Ht1 Hc1 Ht2 Hc2.
  split; [apply (computeCacheKey_question _ _ _ _ H1)|].
  split; [apply (computeCacheKey_question _ _ _ _ H2)|].
  unfold hashed. split.
  - intros Heq. apply app_inj_1 in Heq as [Hhdr Hname]; [|reflexivity].
    apply app_inj_1 in Hhdr as [Htype Hhdr]; [|reflexivity].
    apply app_inj_1 in Hhdr as [Hclass Hflag]; [|reflexivity].
    split; [apply le16_injective; assumption|].
    split; [apply le16_injective; assumption|].
    split; [destruct (dnssec st1), (dnssec st2); congruence|].
    apply normalized_equal_fold, Hname.
  - intros (Htype & Hclass & Hflag & Hname).
    rewrite Htype, Hclass, Hflag, (equal_fold_normalized _ _ Hname). reflexivity.
Qed.

End HashedBytes.

(** * What the reader hands out *)

Section Served.

Context `{SieveCache Cache}.
Implicit Types (w : World Cache) (st : PluginsState).


End Served.

(** * The guard and the configured capacity *)

Section Capacity.

Context `{SieveCache Cache}.
Implicit Types (w : World Cache) (st : PluginsState).

Lemma bind_ext {A B} (m : M Cache A) (k1 k2 : A -> M Cache B) w :
  (forall a w1, m w = Done a w1 -> k1 a w1 = k2 a w1) ->
  bind m k1 w = bind m k2 w.
Proof.
  intros Hk. unfold bind. destruct (m w) as [a w1|]; [|reflexivity].
  apply Hk. reflexivity.
Qed.

Lemma bind_first {A B} (m1 m2 : M Cache A) (k : A -> M Cache B) w :
  m1 w = m2 w -> bind m1 k w = bind m2 k w.
Proof. intros Hm. unfold bind. rewrite Hm. reflexivity. Qed.

(** Property X13.  Once the guard has fired the configured cache size plays no part: the
    writer does the same whatever capacity the per-query state asks for. *)
Theorem capacity_is_ignored_once_the_guard_has_fired
    st (capacity : Z) (response : Msg) w :
  cacheOnce (cachedResponses w) = true ->
  PluginCacheResponse.Eval (with_cacheSize st capacity) response w
  = PluginCacheResponse.Eval st response w.
Proof.
  intros Honce. unfold PluginCacheResponse.Eval.
  destruct (negb _ && negb _ && negb _); [reflexivity|].
  destruct (Truncated response); [reflexivity|].
  change (computeCacheKey (with_cacheSize st capacity) response)
    with (computeCacheKey st response).
  cbn [cacheMinTTL cacheMaxTTL cacheNegMinTTL cacheNegMaxTTL with_cacheSize].
  apply bind_ext. intros key w0 Hk.
  assert (w0 = w) as ->.
  { destruct (computeCacheKey st response); [|discriminate].
    injection Hk as _ <-. reflexivity. }
  apply bind_ext. intros ttl w1 Httl.
  apply getMinTTL_same in Httl as ->.
  apply bind_ext. intros t w2 Hnow. injection Hnow as _ <-.
  apply bind_first. unfold PluginCacheResponse.cacheOnce_Do.
  cbn [cachedResponses with_ticks]. rewrite Honce. reflexivity.
Qed.

(** Property X14.  A store exists only after the guard has fired: every call keeps this,
    so it holds along every run from a world without a store. *)
Theorem store_exists_only_after_the_guard_fired w w' :
  later w w' ->
  (cache (cachedResponses w) <> None -> cacheOnce (cachedResponses w) = true) ->
  cache (cachedResponses w') <> None -> cacheOnce (cachedResponses w') = true.
Proof.
  induction 1 as [w|w w1 w2 Hcall _ IH]; intros Hinv; [exact Hinv|].
  apply IH. clear IH. intros Hsome.
  destruct Hcall as [st st' query e w w1 He|st response e w w1 He].
  - destruct (reader_step _ _ _ _ _ _ He) as (_ & _ & Honce & _ & Hstore).
    rewrite Honce. apply Hinv. intros Hnone. rewrite Hnone in Hstore.
    destruct Hstore as [Heq _]. rewrite Heq in Hsome. contradiction.
  - destruct (writer_step _ _ _ _ _ He) as (_ & Hkeep & _ & Hstore).
    destruct Hstore as [Hsame|(c & key & ttl & _ & _ & _ & _ & _ & _ & Hfired)];
      [|exact Hfired].
    apply Hkeep, Hinv. rewrite <- Hsame. exact Hsome.
Qed.

End Capacity.

(** * The boundary of freshness, and the writer without a store *)

Section Boundaries.

Context `{SieveCache Cache}.
Implicit Types (w : World Cache) (st : PluginsState).

Lemma remaining_seconds_past (until : Z) : until <= 0 -> remaining_seconds until = 0.
Proof.
  intros Hu. unfold remaining_seconds.
  destruct (Z.leb_spec until 0); [reflexivity|lia].
Qed.

(** Property X15.  A hit is stale exactly when the clock reads strictly after the
    expiration of the entry; a hit read at the expiration itself, or before
    it, is answered as fresh, and if the clock has reached the expiration
    when the records are rewritten, every record is served with a TTL of
    zero. *)
Theorem hit_is_stale_exactly_after_expiration st (query : Msg) w key c cached :
  computeCacheKey st query = Some key ->
  cache (cachedResponses w) = Some c ->
  fst (Get c key) = Some cached ->
  allocated (heap w) (records (msg cached)) ->
  exists st' synth w',
    PluginCache.Eval st query w = Done (st', None) w'
    /\ synth = synthesized query (msg cached) (length (heap w))
    /\ (expiration cached < clock w (ticks w)
        /\ st' = set_stale st synth
        /\ ticks w' = S (S (S (ticks w)))
        \/ clock w (ticks w) <= expiration cached
           /\ st' = set_synth st synth
           /\ ticks w' = S (S (ticks w))
           /\ (expiration cached <= clock w (S (ticks w)) ->
                 deref (heap w') (records synth)
                 = map (fmap (with_Ttl 0)) (deref (heap w) (records (msg cached))))).
Proof.
  intros Hk Hc Hg Hal.
  destruct (allocated_values _ _ Hal) as [vs Hvs].
  pose proof (reader_found st query w key c cached vs Hk Hc Hg Hvs) as He.
  cbv zeta in He.
  destruct (Z.ltb_spec (expiration cached) (clock w (ticks w))) as [Hlt|Hge].
  - eexists _, _, _. split; [exact He|]. split; [reflexivity|].
    left. repeat split. exact Hlt.
  - eexists _, _, _. split; [exact He|]. split; [reflexivity|].
    right. split; [exact Hge|]. split; [reflexivity|]. split; [reflexivity|].
    intros Hpast. cbn [heap].
    rewrite remaining_seconds_past by lia.
    rewrite records_synthesized, (Forall2_length _ _ _ Hvs), (deref_values _ _ _ Hvs).
    rewrite map_map. cbn [fmap option_fmap option_map].
    rewrite <- (map_map (with_Ttl 0) Some), <- (length_map (with_Ttl 0) vs).
    pose proof (deref_fresh (heap w) (map (with_Ttl 0) vs) [] []) as Hd.
    cbn [length app] in Hd. rewrite Nat.add_0_r, app_nil_r in Hd. exact Hd.
Qed.

(** Property X16.  With the guard fired and no store (after a failed construction), a
    cacheable response is not inserted anywhere, yet the writer still
    rewrites the TTL of its records to the TTL of the policy and returns
    nil. *)
Theorem writer_without_a_store_still_rewrites_ttls st (response : Msg) w key :
  cacheable_status (Rcode response) = true ->
  Truncated response = false ->
  computeCacheKey st response = Some key ->
  allocated (heap w) (records response) ->
  disabled w ->
  exists ttl w',
    getMinTTL response (cacheMinTTL st) (cacheMaxTTL st)
      (cacheNegMinTTL st) (cacheNegMaxTTL st) w = Done ttl w
    /\ PluginCacheResponse.Eval st response w = Done None w'
    /\ disabled w'
    /\ constructions w' = constructions w
    /\ length (heap w') = length (heap w)
    /\ (forall l, l ∉ records response -> heap w' !! l = heap w !! l)
    /\ (forall l, l ∈ records response ->
          heap w' !! l
          = with_Ttl (remaining_seconds
                        (clock w (ticks w) + ttl - clock w (S (ticks w))))
              <$> heap w !! l).
Proof.
  intros Hs Ht Hk Hal [Honce Hnone].
  destruct (getMinTTL_reads response (cacheMinTTL st) (cacheMaxTTL st)
              (cacheNegMinTTL st) (cacheNegMaxTTL st) w Hal) as [ttl Httl].
  exists ttl. eexists. split; [exact Httl|].
  split; [apply (writer_guard_fired st response w key ttl Hs Ht Hk Hal Httl Honce)|].
  unfold disabled. cbn [cachedResponses cache cacheOnce heap constructions].
  rewrite Hnone. cbn [fmap option_fmap option_map].
  split; [split; reflexivity|]. split; [reflexivity|].
  split; [apply length_retimed|].
  split; [intros l Hl; apply lookup_retimed_notin, Hl
         |intros l Hl; apply lookup_retimed_in, Hl].
Qed.

End Boundaries.

(** * The theorems above on the sample inputs *)

Lemma sample_constructs_empty : @constructs_empty BoundedStore.t _.
Proof.
  intros capacity c k. cbn. unfold BoundedStore.construct.
  destruct (capacity <=? 0); [discriminate|]. intros [= <-]. reflexivity.
Qed.

Lemma sample_store_holds (k : CacheKey) (cached : CachedResponse) :
  fst (Get Sample.store k) = Some cached -> cached = Sample.entry.
Proof.
  unfold Get, BoundedStore_SieveCache, BoundedStore.get, Sample.store.
  cbn [fst BoundedStore.entries find].
  destruct (BoundedStore.has_key k (Sample.key, Sample.entry)); [|discriminate].
  intros [= <-]. reflexivity.
Qed.

Lemma sample_stored_allocated (t : Z) : stored_allocated (Sample.cached_at t).
Proof.
  intros c k cached [= <-] Hg. apply sample_store_holds in Hg as ->.
  repeat constructor.
Qed.


Lemma sample_response_allocated :
  allocated (heap Sample.start) (records Sample.response).
Proof. repeat constructor. Qed.

Lemma sample_ttl :
  getMinTTL Sample.response (cacheMinTTL Sample.config) (cacheMaxTTL Sample.config)
    (cacheNegMinTTL Sample.config) (cacheNegMaxTTL Sample.config) Sample.start
  = Done (60 * Second) Sample.start.
Proof. vm_compute. reflexivity. Qed.

Lemma cacheable_response_is_recorded_witness :
  SieveCacheLaws BoundedStore.t
  /\ cacheable_status (Rcode Sample.response) = true
  /\ Truncated Sample.response = false
  /\ computeCacheKey Sample.config Sample.response = Some Sample.key
  /\ allocated (heap Sample.start) (records Sample.response)
  /\ ((cachedResponses Sample.start = {| cache := Some Sample.empty_store; cacheOnce := true |}
   \/ cacheOnce (cachedResponses Sample.start) = false /\ NewSharded (cacheSize Sample.config) = inl Sample.empty_store))
  /\ (exists ttl w' c',
    getMinTTL Sample.response (cacheMinTTL Sample.config) (cacheMaxTTL Sample.config)
      (cacheNegMinTTL Sample.config) (cacheNegMaxTTL Sample.config) Sample.start = Done ttl Sample.start
    /\ PluginCacheResponse.Eval Sample.config Sample.response Sample.start = Done None w'
    /\ cache (cachedResponses w') = Some c'
    /\ fst (Get c' Sample.key)
       = Some {| expiration := clock Sample.start (ticks Sample.start) + ttl; msg := Sample.response |}
    /\ length (heap w') = length (heap Sample.start)
    /\ (forall l, l ∉ records Sample.response -> heap w' !! l = heap Sample.start !! l)
    /\ (forall l, l ∈ records Sample.response ->
          heap w' !! l
          = with_Ttl (remaining_seconds
                        (clock Sample.start (ticks Sample.start) + ttl - clock Sample.start (S (ticks Sample.start))))
              <$> heap Sample.start !! l)).
Proof.
  split; [exact BoundedStore_laws|].
  split; [reflexivity|].
  split; [reflexivity|].
  split; [exact (sample_key_derived Sample.config Sample.response eq_refl eq_refl)|].
  split; [exact sample_response_allocated|].
  split; [right; split; reflexivity|].
  apply (cacheable_response_is_recorded (Cache := BoundedStore.t) Sample.config Sample.response Sample.start Sample.key Sample.empty_store);
    [reflexivity
    |reflexivity
    |exact (sample_key_derived Sample.config Sample.response eq_refl eq_refl)
    |exact sample_response_allocated
    |right; split; reflexivity].
Defined.

Lemma recorded_entry_shares_the_records_of_the_response_witness :
  SieveCacheLaws BoundedStore.t
  /\ cacheable_status (Rcode Sample.response) = true
  /\ Truncated Sample.response = false
  /\ computeCacheKey Sample.config Sample.response = Some Sample.key
  /\ allocated (heap Sample.start) (records Sample.response)
  /\ ((cachedResponses Sample.start = {| cache := Some Sample.empty_store; cacheOnce := true |}
   \/ cacheOnce (cachedResponses Sample.start) = false /\ NewSharded (cacheSize Sample.config) = inl Sample.empty_store))
  /\ (exists ttl w' c' cached,
    getMinTTL Sample.response (cacheMinTTL Sample.config) (cacheMaxTTL Sample.config)
      (cacheNegMinTTL Sample.config) (cacheNegMaxTTL Sample.config) Sample.start = Done ttl Sample.start
    /\ PluginCacheResponse.Eval Sample.config Sample.response Sample.start = Done None w'
    /\ cache (cachedResponses w') = Some c'
    /\ fst (Get c' Sample.key) = Some cached
    /\ records (msg cached) = records Sample.response
    /\ deref (heap w') (records (msg cached))
       = map (fmap (with_Ttl (remaining_seconds
                                (expiration cached - clock Sample.start (S (ticks Sample.start))))))
           (deref (heap Sample.start) (records Sample.response))
    /\ forall l r, l ∈ records Sample.response ->
         l ∈ records (msg cached)
         /\ deref (<[l := r]> (heap w')) [l] = [Some r]).
Proof.
  split; [exact BoundedStore_laws|].
  split; [reflexivity|].
  split; [reflexivity|].
  split; [exact (sample_key_derived Sample.config Sample.response eq_refl eq_refl)|].
  split; [exact sample_response_allocated|].
  split; [right; split; reflexivity|].
  apply (recorded_entry_shares_the_records_of_the_response (Cache := BoundedStore.t) Sample.config Sample.response Sample.start Sample.key Sample.empty_store);
    [reflexivity
    |reflexivity
    |exact (sample_key_derived Sample.config Sample.response eq_refl eq_refl)
    |exact sample_response_allocated
    |right; split; reflexivity].
Defined.

Lemma lookup_returns_nil_witness :
  Question Sample.query = Sample.question :: []
  /\ stored_allocated (Sample.cached_at (1010 * Second))
  /\ (exists key st' w',
    computeCacheKey Sample.config Sample.query = Some key
    /\ PluginCache.Eval Sample.config Sample.query (Sample.cached_at (1010 * Second)) = Done (st', None) w'
    /\ (cache (cachedResponses (Sample.cached_at (1010 * Second))) = None -> st' = Sample.config /\ w' = (Sample.cached_at (1010 * Second)))
    /\ (miss (Sample.cached_at (1010 * Second)) key ->
          st' = Sample.config /\ heap w' = heap (Sample.cached_at (1010 * Second)) /\ ticks w' = ticks (Sample.cached_at (1010 * Second))
          /\ cacheOnce (cachedResponses w') = cacheOnce (cachedResponses (Sample.cached_at (1010 * Second)))
          /\ constructions w' = constructions (Sample.cached_at (1010 * Second)))).
Proof.
  split; [reflexivity|].
  split; [exact (sample_stored_allocated (1010 * Second))|].
  apply (lookup_returns_nil Sample.config Sample.query Sample.question [] (Sample.cached_at (1010 * Second)));
    [reflexivity
    |exact (sample_stored_allocated (1010 * Second))].
Defined.

Lemma recorded_answer_is_served_witness :
  SieveCacheLaws BoundedStore.t
  /\ cacheable_status (Rcode Sample.response) = true
  /\ Truncated Sample.response = false
  /\ computeCacheKey Sample.config Sample.response = Some Sample.key
  /\ allocated (heap Sample.start) (records Sample.response)
  /\ ((cachedResponses Sample.start = {| cache := Some Sample.empty_store; cacheOnce := true |}
   \/ cacheOnce (cachedResponses Sample.start) = false /\ NewSharded (cacheSize Sample.config) = inl Sample.empty_store))
  /\ getMinTTL Sample.response (cacheMinTTL Sample.config) (cacheMaxTTL Sample.config)
    (cacheNegMinTTL Sample.config) (cacheNegMaxTTL Sample.config) Sample.start = Done (60 * Second) Sample.start
  /\ computeCacheKey Sample.other_config Sample.query = Some Sample.key
  /\ clock Sample.start (S (S (ticks Sample.start))) <= clock Sample.start (ticks Sample.start) + (60 * Second)
  /\ (exists w1 st' synth w2,
    PluginCacheResponse.Eval Sample.config Sample.response Sample.start = Done None w1
    /\ PluginCache.Eval Sample.other_config Sample.query w1 = Done (st', None) w2
    /\ synthResponse st' = Some synth
    /\ action st' = PluginsActionSynth
    /\ cacheHit st' = true
    /\ Id synth = Id Sample.query
    /\ Question synth = Question Sample.query
    /\ Rcode synth = Rcode Sample.response
    /\ let served :=
         remaining_seconds
           (clock Sample.start (ticks Sample.start) + (60 * Second) - clock Sample.start (S (S (S (ticks Sample.start))))) in
       deref (heap w2) (Answer synth)
       = map (fmap (with_Ttl served)) (deref (heap Sample.start) (Answer Sample.response))
       /\ deref (heap w2) (Ns synth)
          = map (fmap (with_Ttl served)) (deref (heap Sample.start) (Ns Sample.response))
       /\ deref (heap w2) (Extra synth)
          = map (fmap (with_Ttl served)) (deref (heap Sample.start) (Extra Sample.response))).
Proof.
  split; [exact BoundedStore_laws|].
  split; [reflexivity|].
  split; [reflexivity|].
  split; [exact (sample_key_derived Sample.config Sample.response eq_refl eq_refl)|].
  split; [exact sample_response_allocated|].
  split; [right; split; reflexivity|].
  split; [exact sample_ttl|].
  split; [exact (sample_key_derived Sample.other_config Sample.query eq_refl eq_refl)|].
  split; [vm_compute; discriminate|].
  apply (recorded_answer_is_served (Cache := BoundedStore.t) Sample.config Sample.response Sample.start Sample.key Sample.empty_store (60 * Second) Sample.other_config Sample.query);
    [reflexivity
    |reflexivity
    |exact (sample_key_derived Sample.config Sample.response eq_refl eq_refl)
    |exact sample_response_allocated
    |right; split; reflexivity
    |exact sample_ttl
    |exact (sample_key_derived Sample.other_config Sample.query eq_refl eq_refl)
    |vm_compute; discriminate].
Defined.

Lemma served_copies_are_private_witness :
  SieveCacheLaws BoundedStore.t
  /\ computeCacheKey Sample.config Sample.query = Some Sample.key
  /\ computeCacheKey Sample.other_config Sample.query = Some Sample.key
  /\ cache (cachedResponses (Sample.cached_at (1010 * Second))) = Some Sample.store
  /\ fst (Get Sample.store Sample.key) = Some Sample.entry
  /\ allocated (heap (Sample.cached_at (1010 * Second))) (records (msg Sample.entry))
  /\ clock (Sample.cached_at (1010 * Second)) (ticks (Sample.cached_at (1010 * Second))) <= expiration Sample.entry
  /\ clock (Sample.cached_at (1010 * Second)) (S (S (ticks (Sample.cached_at (1010 * Second))))) <= expiration Sample.entry
  /\ (exists st1' synth1 w1 st2' synth2 w2,
    PluginCache.Eval Sample.config Sample.query (Sample.cached_at (1010 * Second)) = Done (st1', None) w1
    /\ synthResponse st1' = Some synth1
    /\ PluginCache.Eval Sample.other_config Sample.query w1 = Done (st2', None) w2
    /\ synthResponse st2' = Some synth2
    /\ (forall l, l ∈ records synth1 ->
          (l ∉ records synth2) /\ (l ∉ records (msg Sample.entry)))
    /\ (forall l, l ∈ records synth2 ->
          (l ∉ records synth1) /\ (l ∉ records (msg Sample.entry)))
    /\ (forall l r, l ∈ records synth1 ->
          deref (<[l := r]> (heap w2)) (records synth2)
          = deref (heap w2) (records synth2)
          /\ deref (<[l := r]> (heap w2)) (records (msg Sample.entry))
             = deref (heap w2) (records (msg Sample.entry)))
    /\ (forall l r, l ∈ records synth2 ->
          deref (<[l := r]> (heap w2)) (records synth1)
          = deref (heap w2) (records synth1)
          /\ deref (<[l := r]> (heap w2)) (records (msg Sample.entry))
             = deref (heap w2) (records (msg Sample.entry)))).
Proof.
  split; [exact BoundedStore_laws|].
  split; [exact (sample_key_derived Sample.config Sample.query eq_refl eq_refl)|].
  split; [exact (sample_key_derived Sample.other_config Sample.query eq_refl eq_refl)|].
  split; [reflexivity|].
  split; [exact sample_entry_found|].
  split; [exact (sample_entry_allocated (1010 * Second))|].
  split; [vm_compute; discriminate|].
  split; [vm_compute; discriminate|].
  apply (served_copies_are_private (Cache := BoundedStore.t) Sample.config Sample.other_config Sample.query Sample.query (Sample.cached_at (1010 * Second)) Sample.key Sample.store Sample.entry);
    [exact (sample_key_derived Sample.config Sample.query eq_refl eq_refl)
    |exact (sample_key_derived Sample.other_config Sample.query eq_refl eq_refl)
    |reflexivity
    |exact sample_entry_found
    |exact (sample_entry_allocated (1010 * Second))
    |vm_compute; discriminate
    |vm_compute; discriminate].
Defined.

Lemma hashed_bytes_tell_questions_apart_witness :
  Question Sample.QUERY = Sample.QUESTION :: []
  /\ Question Sample.query = Sample.question :: []
  /\ 0 <= Qtype Sample.QUESTION < 65536
  /\ 0 <= Qclass Sample.QUESTION < 65536
  /\ 0 <= Qtype Sample.question < 65536
  /\ 0 <= Qclass Sample.question < 65536
  /\ computeCacheKey Sample.other_config Sample.QUERY = Some (SHA512.Sum512_256 (hashed (dnssec Sample.other_config) Sample.QUESTION))
  /\ computeCacheKey Sample.config Sample.query = Some (SHA512.Sum512_256 (hashed (dnssec Sample.config) Sample.question))
  /\ (hashed (dnssec Sample.other_config) Sample.QUESTION = hashed (dnssec Sample.config) Sample.question
      <-> Qtype Sample.QUESTION = Qtype Sample.question
          /\ Qclass Sample.QUESTION = Qclass Sample.question
          /\ dnssec Sample.other_config = dnssec Sample.config
          /\ names_equal_fold (Name Sample.QUESTION) (Name Sample.question) = true).
Proof.
  split; [reflexivity|].
  split; [reflexivity|].
  split; [in_range|].
  split; [in_range|].
  split; [in_range|].
  split; [in_range|].
  apply (hashed_bytes_tell_questions_apart Sample.other_config Sample.config Sample.QUERY Sample.query Sample.QUESTION Sample.question [] []);
    [reflexivity
    |reflexivity
    |in_range
    |in_range
    |in_range
    |in_range].
Defined.

Lemma reader_leaves_the_store_as_found_witness :
  exists st' e w',
  SieveCacheLaws BoundedStore.t
  /\ PluginCache.Eval Sample.config Sample.query (Sample.cached_at (1010 * Second)) = Done (st', e) w'
  /\ e = None
  /\ constructions w' = constructions (Sample.cached_at (1010 * Second))
  /\ cacheOnce (cachedResponses w') = cacheOnce (cachedResponses (Sample.cached_at (1010 * Second)))
  /\ (cache (cachedResponses w') = None <-> cache (cachedResponses (Sample.cached_at (1010 * Second))) = None)
  /\ forall c c' k,
       cache (cachedResponses (Sample.cached_at (1010 * Second))) = Some c ->
       cache (cachedResponses w') = Some c' ->
       fst (Get c' k) = fst (Get c k).
Proof.
  exists_reader_outcome (PluginCache.Eval Sample.config Sample.query (Sample.cached_at (1010 * Second))).
  assert (Hrun : PluginCache.Eval Sample.config Sample.query (Sample.cached_at (1010 * Second))
                 = ltac:(let v := eval vm_compute in (PluginCache.Eval Sample.config Sample.query (Sample.cached_at (1010 * Second))) in exact v))
    by (vm_compute; reflexivity).
  split; [exact BoundedStore_laws|].
  split; [exact Hrun|].
  eapply (reader_leaves_the_store_as_found (Cache := BoundedStore.t) Sample.config Sample.query (Sample.cached_at (1010 * Second)));
    [exact Hrun].
Defined.


Lemma construction_happens_at_most_once_witness :
  exists w',
  later Sample.start w'
  /\ ((cacheOnce (cachedResponses Sample.start) = true ->
     cacheOnce (cachedResponses w') = true
     /\ constructions w' = constructions Sample.start)
  /\ (constructions w' = constructions Sample.start
      \/ cacheOnce (cachedResponses Sample.start) = false
         /\ cacheOnce (cachedResponses w') = true
         /\ exists capacity, constructions w' = capacity :: constructions Sample.start)).
Proof.
  with_writer_world (PluginCacheResponse.Eval Sample.config Sample.response Sample.start) ltac:(fun w1 => exists w1).
  split; [apply rtc_once; apply (call_writer Sample.config Sample.response None); vm_compute; reflexivity|].
  apply (construction_happens_at_most_once Sample.start);
    [apply rtc_once; apply (call_writer Sample.config Sample.response None); vm_compute; reflexivity].
Defined.

Lemma store_is_never_dropped_witness :
  exists w',
  later (Sample.cached_at (1010 * Second)) w'
  /\ cache (cachedResponses (Sample.cached_at (1010 * Second))) <> None
  /\ cache (cachedResponses w') <> None.
Proof.
  let v := eval vm_compute in (PluginCache.Eval Sample.config Sample.query (Sample.cached_at (1010 * Second))) in lazymatch v with Done _ ?w1 => exists w1 end.
  split; [apply rtc_once; apply (call_reader Sample.config (set_synth Sample.config (synthesized Sample.query Sample.response 1)) Sample.query None); vm_compute; reflexivity|].
  split; [discriminate|].
  apply (store_is_never_dropped (Sample.cached_at (1010 * Second)));
    [apply rtc_once; apply (call_reader Sample.config (set_synth Sample.config (synthesized Sample.query Sample.response 1)) Sample.query None); vm_compute; reflexivity
    |discriminate].
Defined.

Lemma stored_records_stay_allocated_witness :
  exists w',
  SieveCacheLaws BoundedStore.t
  /\ (@constructs_empty BoundedStore.t _)
  /\ later Sample.start w'
  /\ (stored_allocated Sample.start -> stored_allocated w')
  /\ (cache (cachedResponses Sample.start) = None -> stored_allocated w').
Proof.
  with_writer_world (PluginCacheResponse.Eval Sample.config Sample.response Sample.start) ltac:(fun w1 => exists w1).
  split; [exact BoundedStore_laws|].
  split; [exact sample_constructs_empty|].
  split; [apply rtc_once; apply (call_writer Sample.config Sample.response None); vm_compute; reflexivity|].
  apply (stored_records_stay_allocated (Cache := BoundedStore.t) Sample.start);
    [exact sample_constructs_empty
    |apply rtc_once; apply (call_writer Sample.config Sample.response None); vm_compute; reflexivity].
Defined.

Lemma only_cacheable_responses_are_stored_witness :
  exists w',
  SieveCacheLaws BoundedStore.t
  /\ (@constructs_empty BoundedStore.t _)
  /\ later Sample.start w'
  /\ (stored_cacheable Sample.start -> stored_cacheable w')
  /\ (cache (cachedResponses Sample.start) = None -> stored_cacheable w').
Proof.
  with_writer_world (PluginCacheResponse.Eval Sample.config Sample.response Sample.start) ltac:(fun w1 => exists w1).
  split; [exact BoundedStore_laws|].
  split; [exact sample_constructs_empty|].
  split; [apply rtc_once; apply (call_writer Sample.config Sample.response None); vm_compute; reflexivity|].
  apply (only_cacheable_responses_are_stored (Cache := BoundedStore.t) Sample.start);
    [exact sample_constructs_empty
    |apply rtc_once; apply (call_writer Sample.config Sample.response None); vm_compute; reflexivity].
Defined.

Lemma capacity_is_ignored_once_the_guard_has_fired_witness :
  cacheOnce (cachedResponses (Sample.cached_at (1010 * Second))) = true
  /\ PluginCacheResponse.Eval (with_cacheSize Sample.config 512) Sample.response (Sample.cached_at (1010 * Second))
  = PluginCacheResponse.Eval Sample.config Sample.response (Sample.cached_at (1010 * Second)).
Proof.
  split; [reflexivity|].
  apply (capacity_is_ignored_once_the_guard_has_fired Sample.config 512 Sample.response (Sample.cached_at (1010 * Second)));
    [reflexivity].
Defined.

Lemma store_exists_only_after_the_guard_fired_witness :
  exists w',
  later Sample.start w'
  /\ (cache (cachedResponses Sample.start) <> None -> cacheOnce (cachedResponses Sample.start) = true)
  /\ cache (cachedResponses w') <> None
  /\ cacheOnce (cachedResponses w') = true.
Proof.
  with_writer_world (PluginCacheResponse.Eval Sample.config Sample.response Sample.start) ltac:(fun w1 => exists w1).
  split; [apply rtc_once; apply (call_writer Sample.config Sample.response None); vm_compute; reflexivity|].
  split; [intros Hstore; exfalso; apply Hstore; reflexivity|].
  split; [discriminate|].
  apply (store_exists_only_after_the_guard_fired Sample.start);
    [apply rtc_once; apply (call_writer Sample.config Sample.response None); vm_compute; reflexivity
    |intros Hstore; exfalso; apply Hstore; reflexivity
    |discriminate].
Defined.

Lemma hit_is_stale_exactly_after_expiration_witness :
  computeCacheKey Sample.config Sample.query = Some Sample.key
  /\ cache (cachedResponses (Sample.cached_at (1060 * Second))) = Some Sample.store
  /\ fst (Get Sample.store Sample.key) = Some Sample.entry
  /\ allocated (heap (Sample.cached_at (1060 * Second))) (records (msg Sample.entry))
  /\ (exists st' synth w',
    PluginCache.Eval Sample.config Sample.query (Sample.cached_at (1060 * Second)) = Done (st', None) w'
    /\ synth = synthesized Sample.query (msg Sample.entry) (length (heap (Sample.cached_at (1060 * Second))))
    /\ (expiration Sample.entry < clock (Sample.cached_at (1060 * Second)) (ticks (Sample.cached_at (1060 * Second)))
        /\ st' = set_stale Sample.config synth
        /\ ticks w' = S (S (S (ticks (Sample.cached_at (1060 * Second)))))
        \/ clock (Sample.cached_at (1060 * Second)) (ticks (Sample.cached_at (1060 * Second))) <= expiration Sample.entry
           /\ st' = set_synth Sample.config synth
           /\ ticks w' = S (S (ticks (Sample.cached_at (1060 * Second))))
           /\ (expiration Sample.entry <= clock (Sample.cached_at (1060 * Second)) (S (ticks (Sample.cached_at (1060 * Second)))) ->
                 deref (heap w') (records synth)
                 = map (fmap (with_Ttl 0)) (deref (heap (Sample.cached_at (1060 * Second))) (records (msg Sample.entry)))))).
Proof.
  split; [exact (sample_key_derived Sample.config Sample.query eq_refl eq_refl)|].
  split; [reflexivity|].
  split; [exact sample_entry_found|].
  split; [exact (sample_entry_allocated (1060 * Second))|].
  apply (hit_is_stale_exactly_after_expiration Sample.config Sample.query (Sample.cached_at (1060 * Second)) Sample.key Sample.store Sample.entry);
    [exact (sample_key_derived Sample.config Sample.query eq_refl eq_refl)
    |reflexivity
    |exact sample_entry_found
    |exact (sample_entry_allocated (1060 * Second))].
Defined.

Lemma writer_without_a_store_still_rewrites_ttls_witness :
  cacheable_status (Rcode Sample.response) = true
  /\ Truncated Sample.response = false
  /\ computeCacheKey Sample.config Sample.response = Some Sample.key
  /\ allocated (heap Sample.after_failure) (records Sample.response)
  /\ disabled Sample.after_failure
  /\ (exists ttl w',
    getMinTTL Sample.response (cacheMinTTL Sample.config) (cacheMaxTTL Sample.config)
      (cacheNegMinTTL Sample.config) (cacheNegMaxTTL Sample.config) Sample.after_failure = Done ttl Sample.after_failure
    /\ PluginCacheResponse.Eval Sample.config Sample.response Sample.after_failure = Done None w'
    /\ disabled w'
    /\ constructions w' = constructions Sample.after_failure
    /\ length (heap w') = length (heap Sample.after_failure)
    /\ (forall l, l ∉ records Sample.response -> heap w' !! l = heap Sample.after_failure !! l)
    /\ (forall l, l ∈ records Sample.response ->
          heap w' !! l
          = with_Ttl (remaining_seconds
                        (clock Sample.after_failure (ticks Sample.after_failure) + ttl - clock Sample.after_failure (S (ticks Sample.after_failure))))
              <$> heap Sample.after_failure !! l)).
Proof.
  split; [reflexivity|].
  split; [reflexivity|].
  split; [exact (sample_key_derived Sample.config Sample.response eq_refl eq_refl)|].
  split; [repeat constructor|].
  split; [split; reflexivity|].
  apply (writer_without_a_store_still_rewrites_ttls Sample.config Sample.response Sample.after_failure Sample.key);
    [reflexivity
    |reflexivity
    |exact (sample_key_derived Sample.config Sample.response eq_refl eq_refl)
    |repeat constructor
    |split; reflexivity].
Defined.
